(** * cuti-cli: the fetch / normalize / consolidate pipeline

    A shallow embedding of [scraper/scraper.go] and of [main.go] (the driver
    loop, the choice of the output format and [saveCSV]), with the
    properties of the date normalizer, the state-name canonicalizer, the
    page extractor, the consolidator and the output files.

    Go strings are byte sequences; they are modelled by [string] (a list of
    8-bit [ascii] values).  Go's [int] is modelled by [Z]: the program only
    prints and compares the integers it handles, it never relies on
    wrap-around.  Maps are [gmap]s, slices are lists. *)

From Stdlib Require Import ZArith Lia Ascii String DecimalString DecimalPos
  DecimalZ.
From stdpp Require Import base option gmap strings list sorting.

Set Warnings "-clear-no-such-hyp".

Open Scope string_scope.
Open Scope Z_scope.
Open Scope list_scope.

(** ** Results and the log

    A Go function returning [(T, error)] returns a [result]; what it prints
    through [log.Printf] is kept as a list of events, threaded by a small
    writer monad. *)

Inductive result (A : Type) : Type :=
  | Ok (a : A)
  | Err (e : string).
Arguments Ok {A} a.
Arguments Err {A} e.

Inductive event : Type :=
  | EvDriverFetching (i n : nat) (st : string) (year : Z)   (* main.go:34 *)
  | EvDriverFailed (st : string) (year : Z) (e : string)    (* main.go:38 *)
  | EvFetching (st : string) (year : Z) (url : string)      (* scraper.go:59 *)
  | EvNoRows (st : string) (year : Z)                       (* scraper.go:93 *)
  | EvFetched (n : nat) (st : string) (year : Z)            (* scraper.go:114 *)
  | EvParseFailed (dateStr : string).                       (* scraper.go:132 *)

Definition Log (A : Type) : Type := A * list event.

Definition log_ret {A} (a : A) : Log A := (a, []).
Definition log_bind {A B} (m : Log A) (k : A → Log B) : Log B :=
  let '(a, l1) := m in let '(b, l2) := k a in (b, l1 ++ l2).
Definition log_Printf (e : event) : Log unit := (tt, [e]).

Notation "x <~ m ;; k" := (log_bind m (λ x, k))
  (at level 100, m at next level, right associativity).
Notation "m ;;; k" := (log_bind m (λ _, k))
  (at level 100, right associativity).

(** ** Bytes and strings *)

Definition byte_val (c : ascii) : Z := Z.of_N (N_of_ascii c).
Definition byte_of (z : Z) : ascii := ascii_of_N (Z.to_N z).

(** [s[n:]] *)
Fixpoint string_from (n : nat) (s : string) : string :=
  match n, s with
  | O, _ => s
  | S n', String _ s' => string_from n' s'
  | S _, "" => ""
  end.

(** [s[:n]] *)
Fixpoint string_upto (n : nat) (s : string) : string :=
  match n, s with
  | O, _ => ""
  | S n', String c s' => String c (string_upto n' s')
  | S _, "" => ""
  end.

(** [strings.ReplaceAll(s, old, new)] where [old] is a one-byte string, as at
    both call sites of the program. *)
Fixpoint ReplaceAll (s : string) (old : ascii) (new : string) : string :=
  match s with
  | "" => ""
  | String c s' =>
      if Ascii.eqb c old then new +:+ ReplaceAll s' old new
      else String c (ReplaceAll s' old new)
  end.

(** ** [fmt.Sprintf] verbs used by the program *)

(** [%d]: plain decimal, with a minus sign for negative numbers. *)
Definition fmt_d (n : Z) : string := NilZero.string_of_int (Z.to_int n).

(** [%02d]: zero padding up to width two; the sign counts in the width. *)
Definition fmt_02d (n : Z) : string :=
  let s := fmt_d n in
  if (String.length s <? 2)%nat then "0" +:+ s else s.

(** ** [time.Parse] for the layouts of [normalizeDate]

    The standard library splits a layout into chunks, each a literal prefix
    followed by one standard element ([nextStdChunk]).  The two layouts of
    the program give
      ["2 Jan"]     = [("", stdDay); (" ", stdMonth)]     and the tail [""],
      ["2 January"] = [("", stdDay); (" ", stdLongMonth)] and the tail [""].
    Parsing follows [time.parse]: per chunk, [skip] the prefix and read the
    element; then default the unset fields and validate the day against the
    month in year 0, which the layouts leave as the year. *)

Inductive std : Type := stdDay | stdMonth | stdLongMonth.

Record layout : Type := Layout {
  chunks : list (string * std);
  tail_literal : string
}.

Definition layout_2_Jan : layout :=
  Layout [("", stdDay); (" ", stdMonth)] "".
Definition layout_2_January : layout :=
  Layout [("", stdDay); (" ", stdLongMonth)] "".

Definition shortMonthNames : list string :=
  ["Jan"; "Feb"; "Mar"; "Apr"; "May"; "Jun";
   "Jul"; "Aug"; "Sep"; "Oct"; "Nov"; "Dec"].

Definition longMonthNames : list string :=
  ["January"; "February"; "March"; "April"; "May"; "June";
   "July"; "August"; "September"; "October"; "November"; "December"].

Definition errBad : string := "bad value for field".

Definition isDigit (s : string) (i : nat) : bool :=
  match String.get i s with
  | Some c => (48 <=? byte_val c) && (byte_val c <=? 57)
  | None => false
  end.

(** [getnum]: one or two leading digits ([fixed] forces two). *)
Definition getnum (s : string) (fixed : bool) : result (Z * string) :=
  if negb (isDigit s 0) then Err errBad
  else if negb (isDigit s 1) then
    if fixed then Err errBad
    else match String.get 0 s with
         | Some c0 => Ok (byte_val c0 - 48, string_from 1 s)
         | None => Err errBad
         end
  else match String.get 0 s, String.get 1 s with
       | Some c0, Some c1 =>
           Ok ((byte_val c0 - 48) * 10 + (byte_val c1 - 48), string_from 2 s)
       | _, _ => Err errBad
       end.

Fixpoint cutspace (s : string) : string :=
  match s with
  | String c s' => if Ascii.eqb c " " then cutspace s' else s
  | "" => ""
  end.

(** [skip]: remove [prefix] from [value], a run of spaces in the prefix
    standing for any run of spaces in the value.  Every iteration of the Go
    loop shortens [prefix], so [String.length prefix] iterations suffice. *)
Fixpoint skip_loop (fuel : nat) (value prefix : string) : result string :=
  match prefix with
  | "" => Ok value
  | String p prefix' =>
      match fuel with
      | O => Err errBad
      | S fuel' =>
          if Ascii.eqb p " " then
            match value with
            | String v _ =>
                if negb (Ascii.eqb v " ") then Err errBad
                else skip_loop fuel' (cutspace value) (cutspace prefix)
            | "" => skip_loop fuel' (cutspace value) (cutspace prefix)
            end
          else
            match value with
            | String v value' =>
                if Ascii.eqb v p then skip_loop fuel' value' prefix'
                else Err errBad
            | "" => Err errBad
            end
      end
  end.

Definition skip (value prefix : string) : result string :=
  skip_loop (String.length prefix) value prefix.

(** [match]: equality of two strings of the same length, ignoring the case of
    ASCII letters ([c |= 'a' - 'A'] is [Z.lor c 32]). *)
Fixpoint match_fold (s1 s2 : string) : bool :=
  match s1, s2 with
  | String a1 s1', String a2 s2' =>
      let c1 := byte_val a1 in
      let c2 := byte_val a2 in
      if c1 =? c2 then match_fold s1' s2'
      else
        let c1 := Z.lor c1 32 in
        let c2 := Z.lor c2 32 in
        if negb (c1 =? c2) || (c1 <? 97) || (122 <? c1) then false
        else match_fold s1' s2'
  | _, _ => true
  end.

(** [lookup]: index of the first name of [tab] that [val] starts with. *)
Fixpoint lookup_from (i : Z) (tab : list string) (val : string)
  : result (Z * string) :=
  match tab with
  | [] => Err errBad
  | v :: tab' =>
      if (String.length v <=? String.length val)%nat
         && match_fold (string_upto (String.length v) val) v
      then Ok (i, string_from (String.length v) val)
      else lookup_from (i + 1) tab' val
  end.

Definition lookup (tab : list string) (val : string) : result (Z * string) :=
  lookup_from 0 tab val.

Definition isLeap (year : Z) : bool :=
  (year mod 4 =? 0) && (negb (year mod 100 =? 0) || (year mod 400 =? 0)).

Definition daysIn (m year : Z) : Z :=
  if (m =? 2) then (if isLeap year then 29 else 28)
  else 30 + Z.land (m + Z.shiftr m 3) 1.

(** The fields of a parsed [time.Time] the program reads: [t.Month()] and
    [t.Day()].  The value is [Date(0, month, day, 0, 0, 0, 0, UTC)] with a
    validated day, so both are the parsed numbers. *)
Record Time : Type := MkTime { Month : Z; Day_of_month : Z }.

(** The state of [time.parse] while it walks the chunks: the fields read so
    far ([-1] when unset) and the rest of the value. *)
Fixpoint parse_chunks (cs : list (string * std)) (month day : Z)
    (value : string) : result (Z * Z * string) :=
  match cs with
  | [] => Ok (month, day, value)
  | (prefix, s) :: cs' =>
      match skip value prefix with
      | Err e => Err e
      | Ok value =>
          match s with
          | stdDay =>
              match getnum value false with
              | Err e => Err e
              | Ok (d, value) => parse_chunks cs' month d value
              end
          | stdMonth =>
              match lookup shortMonthNames value with
              | Err e => Err e
              | Ok (m, value) => parse_chunks cs' (m + 1) day value
              end
          | stdLongMonth =>
              match lookup longMonthNames value with
              | Err e => Err e
              | Ok (m, value) => parse_chunks cs' (m + 1) day value
              end
          end
      end
  end.

Definition time_Parse (l : layout) (value : string) : result Time :=
  match parse_chunks (chunks l) (-1) (-1) value with
  | Err e => Err e
  | Ok (month, day, value) =>
      match skip value (tail_literal l) with
      | Err e => Err e
      | Ok value =>
          if negb (String.length value =? 0)%nat then Err "extra text"
          else
            let month := if month <? 0 then 1 else month in
            let day := if day <? 0 then 1 else day in
            if (day <? 1) || (daysIn month 0 <? day) then Err "day out of range"
            else Ok (MkTime month day)
      end
  end.

(** ** [normalizeDate] *)

Definition layouts : list layout := [layout_2_Jan; layout_2_January].

Fixpoint first_parse (ls : list layout) (dateStr : string) : option Time :=
  match ls with
  | [] => None
  | l :: ls' =>
      match time_Parse l dateStr with
      | Ok t => Some t
      | Err _ => first_parse ls' dateStr
      end
  end.

Definition normalizeDate (dateStr : string) (year : Z) : Log string :=
  match first_parse layouts dateStr with
  | Some t =>
      log_ret (fmt_d year +:+ "-" +:+ fmt_02d (Month t) +:+ "-"
               +:+ fmt_02d (Day_of_month t))
  | None =>
      log_Printf (EvParseFailed dateStr) ;;;
      log_ret (fmt_d year +:+ "-" +:+ ReplaceAll dateStr " " "-")
  end.

(** ** Vocabulary of the specification of the date normalizer *)

(** Decimal digits, as the specification writes them. *)
Definition digit_char (d : Z) : ascii := byte_of (48 + d).

Definition two_digits (n : Z) : string :=
  String (digit_char (n / 10)) (String (digit_char (n mod 10)) "").

Definition four_digits (n : Z) : string :=
  String (digit_char (n / 1000))
    (String (digit_char (n / 100 mod 10)) (two_digits (n mod 100))).

Definition is_digit_char (c : ascii) : bool :=
  (48 <=? byte_val c) && (byte_val c <=? 57).

(** The shape [YYYY-MM-DD]: ten bytes, digits around two hyphens. *)
Definition is_YYYY_MM_DD (s : string) : bool :=
  match list_ascii_of_string s with
  | [y1; y2; y3; y4; h1; m1; m2; h2; d1; d2] =>
      forallb is_digit_char [y1; y2; y3; y4; m1; m2; d1; d2]
      && Ascii.eqb h1 "-" && Ascii.eqb h2 "-"
  | _ => false
  end.

(** A string with every space turned into a hyphen. *)
Fixpoint hyphenate (s : string) : string :=
  match s with
  | "" => ""
  | String c s' =>
      String (if Ascii.eqb c " " then "-"%char else c) (hyphenate s')
  end.

Definition month_names (s : std) : list string :=
  match s with stdLongMonth => longMonthNames | _ => shortMonthNames end.

(** Checking a boolean property on a range of integers by evaluation. *)
Definition Z_range (lo : Z) (n : nat) : list Z :=
  map (λ i : nat, lo + Z.of_nat i) (seq 0 n).


(** ** UTF-8, as [strings.ToLower] sees a string

    [strings.ToLower] lowers an ASCII-only string byte by byte and hands any
    other string to [strings.Map(unicode.ToLower, s)], which decodes the
    string rune by rune (an invalid byte decodes to [RuneError], one byte
    wide), maps each rune and encodes the results.  The codec below is the
    one of package [unicode/utf8], with the shifts and masks of the Go code
    written as the divisions and remainders they compute. *)

Definition RuneError : Z := 65533.
Definition MaxRune : Z := 1114111.
Definition RuneSelf : Z := 128.

Definition valid_rune (r : Z) : bool :=
  ((0 <=? r) && (r <? 55296)) || ((57343 <? r) && (r <=? MaxRune)).

Definition bytes (bs : list Z) : string :=
  string_of_list_ascii (map byte_of bs).

(** [utf8.AppendRune]: a value that is not a Unicode scalar is written as
    [RuneError]. *)
Definition EncodeRune (r : Z) : string :=
  if (0 <=? r) && (r <? 128) then bytes [r]
  else if (0 <=? r) && (r <? 2048) then
    bytes [192 + r / 64; 128 + r mod 64]
  else if negb (valid_rune r) then
    bytes [224 + RuneError / 4096; 128 + RuneError / 64 mod 64;
           128 + RuneError mod 64]
  else if r <? 65536 then
    bytes [224 + r / 4096; 128 + r / 64 mod 64; 128 + r mod 64]
  else
    bytes [240 + r / 262144; 128 + r / 4096 mod 64; 128 + r / 64 mod 64;
           128 + r mod 64].

(** The table [first] of package [utf8] together with [acceptRanges]: for a
    leading byte, the length of the sequence and the range allowed for the
    second byte; [None] for a byte that cannot lead a sequence. *)
Definition first (b0 : Z) : option (nat * Z * Z) :=
  if (194 <=? b0) && (b0 <=? 223) then Some (2%nat, 128, 191)
  else if b0 =? 224 then Some (3%nat, 160, 191)
  else if (225 <=? b0) && (b0 <=? 236) then Some (3%nat, 128, 191)
  else if b0 =? 237 then Some (3%nat, 128, 159)
  else if (238 <=? b0) && (b0 <=? 239) then Some (3%nat, 128, 191)
  else if b0 =? 240 then Some (4%nat, 144, 191)
  else if (241 <=? b0) && (b0 <=? 243) then Some (4%nat, 128, 191)
  else if b0 =? 244 then Some (4%nat, 128, 143)
  else None.

Definition in_range (lo hi b : Z) : bool := (lo <=? b) && (b <=? hi).

(** [utf8.DecodeRuneInString]: the rune at the head of [s] and its width. *)
Definition DecodeRuneInString (s : string) : Z * nat :=
  match s with
  | "" => (RuneError, 0%nat)
  | String c0 s1 =>
      let b0 := byte_val c0 in
      if b0 <? RuneSelf then (b0, 1%nat)
      else
        match first b0 with
        | None => (RuneError, 1%nat)
        | Some (sz, lo, hi) =>
            match s1 with
            | "" => (RuneError, 1%nat)
            | String c1 s2 =>
                let b1 := byte_val c1 in
                if negb (in_range lo hi b1) then (RuneError, 1%nat)
                else if (sz <=? 2)%nat then
                  ((b0 - 192) * 64 + (b1 - 128), 2%nat)
                else
                  match s2 with
                  | "" => (RuneError, 1%nat)
                  | String c2 s3 =>
                      let b2 := byte_val c2 in
                      if negb (in_range 128 191 b2) then (RuneError, 1%nat)
                      else if (sz <=? 3)%nat then
                        ((b0 - 224) * 4096 + (b1 - 128) * 64 + (b2 - 128),
                         3%nat)
                      else
                        match s3 with
                        | "" => (RuneError, 1%nat)
                        | String c3 _ =>
                            let b3 := byte_val c3 in
                            if negb (in_range 128 191 b3)
                            then (RuneError, 1%nat)
                            else
                              ((b0 - 240) * 262144 + (b1 - 128) * 4096
                               + (b2 - 128) * 64 + (b3 - 128), 4%nat)
                        end
                  end
            end
        end
  end.

(** The runes of a string, in the order [for _, c := range s] yields them.
    Every step consumes at least one byte, so [String.length s] steps
    suffice. *)
Fixpoint runes_loop (fuel : nat) (s : string) : list Z :=
  match fuel, s with
  | O, _ => []
  | _, "" => []
  | S fuel', _ =>
      let '(r, width) := DecodeRuneInString s in
      r :: runes_loop fuel' (string_from width s)
  end.

Definition runes (s : string) : list Z := runes_loop (String.length s) s.

Fixpoint concat_strings (l : list string) : string :=
  match l with
  | [] => ""
  | s :: l' => s +:+ concat_strings l'
  end.

(** [strings.Map]: a rune mapped to a negative value is dropped. *)
Definition strings_Map (mapping : Z → Z) (s : string) : string :=
  concat_strings
    (map (λ c, let r := mapping c in if 0 <=? r then EncodeRune r else "")
       (runes s)).

Definition string_forallb (p : ascii → bool) (s : string) : bool :=
  forallb p (list_ascii_of_string s).

Fixpoint string_map (f : ascii → ascii) (s : string) : string :=
  match s with
  | "" => ""
  | String c s' => String (f c) (string_map f s')
  end.

Definition is_upper_byte (c : ascii) : bool :=
  (65 <=? byte_val c) && (byte_val c <=? 90).

Definition lower_byte (c : ascii) : ascii :=
  if is_upper_byte c then byte_of (byte_val c + 32) else c.

Section Canonicalizer.

(** The case table of package [unicode], which the program reaches through
    [strings.ToLower] only. *)
Variable unicode_ToLower : Z → Z.

Definition ToLower (s : string) : string :=
  let isASCII := string_forallb (λ c, byte_val c <? RuneSelf) s in
  let hasUpper := negb (string_forallb (λ c, negb (is_upper_byte c)) s) in
  if isASCII then
    if negb hasUpper then s else string_map lower_byte s
  else strings_Map unicode_ToLower s.

(** ** [normalizeState] *)

Definition normalizeState (st : string) : string :=
  let st := ToLower st in
  let st := ReplaceAll st " " "-" in
  let st := ReplaceAll st "&" "and" in
  if String.eqb st "malacca" then "melaka"
  else if String.eqb st "kualalumpur" then "kuala-lumpur"
  else if String.eqb st "putrajayaand-selangor"
          || String.eqb st "putrajaya-selangor" then "putrajaya"
  else st.

End Canonicalizer.

(** A case table to run the canonicalizer with: ASCII and Latin-1 capitals,
    and the Kelvin sign, which lowers to an ASCII letter. *)
Definition sample_ToLower (r : Z) : Z :=
  if (65 <=? r) && (r <=? 90) then r + 32
  else if (192 <=? r) && (r <=? 222) && negb (r =? 215) then r + 32
  else if r =? 8490 then 107
  else r.

(** What the program relies on from the case table of Go: ASCII letters are
    lowered as [unicode.ToLower] lowers them, lowering a Unicode scalar gives
    a Unicode scalar, and a lowered scalar is left alone. *)
Class LowerTable (unicode_ToLower : Z → Z) : Prop := {
  lower_ascii r :
    0 ≤ r < RuneSelf →
    unicode_ToLower r = if (65 <=? r) && (r <=? 90) then r + 32 else r;
  lower_valid r :
    valid_rune r = true → valid_rune (unicode_ToLower r) = true;
  lower_idem r :
    valid_rune r = true →
    unicode_ToLower (unicode_ToLower r) = unicode_ToLower r
}.

(** The encoding of a list of runes. *)
Definition encode_all (rs : list Z) : string :=
  concat_strings (map EncodeRune rs).

(** The bytes of a string, as numbers. *)
Definition byte_vals (s : string) : list Z :=
  map byte_val (list_ascii_of_string s).

(** ** Holiday records *)

Record Holiday : Type := MkHoliday {
  Date : string;
  Day : string;
  Name : string;
  States : list string
}.

Global Instance Holiday_eq_dec : EqDecision Holiday.
Proof. solve_decision. Defined.

(** ** The page, as the in-page script of [FetchState] reads it

    The script looks at the [h2] elements in document order, at the element
    that follows the chosen heading, at its class list and at the text of the
    [td] cells of its [tbody tr] rows ([innerText.trim()] of each cell). *)

Record Element : Type := MkElement {
  classList : list string;
  tbody_tr_tds : list (list string)
}.

Record Heading : Type := MkHeading {
  innerText : string;
  nextElementSibling : option Element
}.

Definition Document : Type := list Heading.

(** [s.includes(sub)] *)
Fixpoint includes (s sub : string) : bool :=
  String.prefix sub s
  || match s with
     | "" => false
     | String _ s' => includes s' sub
     end.

(** The script evaluated by [chromedp.Evaluate], with [%d] filled in. *)
Definition rows_script (year : Z) (document : Document) : list (list string) :=
  match find (λ h, includes (innerText h) (fmt_d year)) document with
  | None => []
  | Some yearHeader =>
      match nextElementSibling yearHeader with
      | None => []
      | Some table =>
          if negb (bool_decide ("publicholidays" ∈ classList table)) then []
          else tbody_tr_tds table
      end
  end.

Definition buildURL (state : string) (year : Z) : string :=
  "https://publicholidays.com.my/" +:+ state +:+ "/" +:+ fmt_d year
  +:+ "-dates/".

(** ** [unique] and [Consolidate] *)

(** [seen[s]] of a [map[string]bool]: [false] for a missing key. *)
Definition seen_at (seen : gmap string bool) (s : string) : bool :=
  default false (seen !! s).

Fixpoint unique_loop (input : list string) (seen : gmap string bool)
    (out : list string) : list string :=
  match input with
  | [] => out
  | s :: input' =>
      if negb (seen_at seen s)
      then unique_loop input' (<[s := true]> seen) (out ++ [s])
      else unique_loop input' seen out
  end.

Definition unique (input : list string) : list string :=
  unique_loop input ∅ [].

Definition merge_key (h : Holiday) : string := Date h +:+ "|" +:+ Name h.

(** One iteration of the merging loop of [Consolidate]. *)
Definition merge_step (merged : gmap string Holiday) (h : Holiday)
  : gmap string Holiday :=
  let key := merge_key h in
  match merged !! key with
  | Some existing =>
      let existing :=
        MkHoliday (Date existing) (Day existing) (Name existing)
          (unique (States existing ++ States h)) in
      <[key := existing]> merged
  | None =>
      let h := MkHoliday (Date h) (Day h) (Name h) (unique (States h)) in
      <[key := h]> merged
  end.

Definition merge_all (holidays : list Holiday) : gmap string Holiday :=
  foldl merge_step ∅ holidays.

(** The comparison handed to [sort.Slice]: [<] on Go strings is the
    lexicographic order of their bytes. *)
Definition less (a b : Holiday) : bool := String.ltb (Date a) (Date b).

(** [a] may stand before [b] in a slice sorted by [less]. *)
Definition not_after (a b : Holiday) : Prop := less b a = false.

Global Instance not_after_dec : RelDecision not_after.
Proof. intros a b. unfold not_after. apply _. Defined.

(** Go leaves two things open in [Consolidate]: the order in which
    [for _, h := range merged] visits the map, and the relative order in
    which [sort.Slice], which is not stable, leaves records of equal date.
    [Consolidate_result holidays result] holds of every slice the function
    may return: the values of the map in some order, in which no record
    stands before one of a smaller date. *)
Definition Consolidate_result (holidays result : list Holiday) : Prop :=
  result ≡ₚ (map_to_list (merge_all holidays)).*2 ∧ Sorted not_after result.

(** One of these results, computed: the map is visited in the order of
    [map_to_list] and sorted by a merge sort. *)
Definition Consolidate (holidays : list Holiday) : list Holiday :=
  merge_sort not_after (map_to_list (merge_all holidays)).*2.

Section Pipeline.

Variable unicode_ToLower : Z → Z.

(** What [chromedp.Run] meets at a URL: an error (navigation failure, or
    the holiday table not visible within the 20 seconds of the page), or the
    document on which the script is evaluated. *)
Variable browser : string → result Document.

(** ** [FetchState] *)

(** The loop over the extracted rows. *)
Fixpoint rows_loop (rows : list (list string)) (state : string) (year : Z)
    (holidays : list Holiday) : Log (list Holiday) :=
  match rows with
  | [] => log_ret holidays
  | r :: rows' =>
      if (length r <? 3)%nat then rows_loop rows' state year holidays
      else
        match r with
        | r0 :: r1 :: r2 :: _ =>
            dateStr <~ normalizeDate r0 year ;;
            let day := r1 in
            let name := r2 in
            rows_loop rows' state year
              (holidays ++ [MkHoliday dateStr day name
                              [normalizeState unicode_ToLower state]])
        | _ => rows_loop rows' state year holidays
        end
  end.

Definition FetchState (state : string) (year : Z)
  : Log (result (list Holiday)) :=
  let url := buildURL state year in
  log_Printf (EvFetching state year url) ;;;
  match browser url with
  | Err err => log_ret (Err ("error loading " +:+ state +:+ ": " +:+ err))
  | Ok document =>
      let rows := rows_script year document in
      if (length rows =? 0)%nat then
        log_Printf (EvNoRows state year) ;;;
        log_ret (Ok [])
      else
        holidays <~ rows_loop rows state year [] ;;
        log_Printf (EvFetched (length holidays) state year) ;;;
        log_ret (Ok holidays)
  end.

(** ** The driver loop of [main] *)

Definition states : list string :=
  ["national";
   "johor"; "kedah"; "kelantan"; "kuala-lumpur";
   "labuan"; "melaka"; "negeri-sembilan"; "pahang";
   "penang"; "perak"; "perlis"; "putrajaya";
   "sabah"; "sarawak"; "selangor"; "terengganu"].

(** [for i, st := range states], from index [i] on, over the rest [sts] of
    a list of [n] states. *)
Fixpoint fetch_loop (i n : nat) (sts : list string) (year : Z)
    (all : list Holiday) : Log (list Holiday) :=
  match sts with
  | [] => log_ret all
  | st :: sts' =>
      log_Printf (EvDriverFetching (i + 1) n st year) ;;;
      r <~ FetchState st year ;;
      match r with
      | Err err =>
          log_Printf (EvDriverFailed st year err) ;;;
          fetch_loop (S i) n sts' year all
      | Ok holidays => fetch_loop (S i) n sts' year (all ++ holidays)
      end
  end.

(** [main] up to the call of [Consolidate]: the accumulated records. *)
Definition main_fetch (year : Z) : Log (list Holiday) :=
  fetch_loop 0 (length states) states year [].

End Pipeline.

(** The states [FetchState] was entered for, read off the log: the function
    prints [EvFetching] first thing, on every call. *)
Definition dispatched (log : list event) : list string :=
  omap (λ e, match e with EvFetching st _ _ => Some st | _ => None end) log.

(** ** Vocabulary of the specification of the page extractor *)

(** The record a row stands for: none for a row of fewer than three cells. *)
Definition record_of_row (unicode_ToLower : Z → Z) (state : string) (year : Z)
    (r : list string) : option Holiday :=
  match r with
  | date :: day :: name :: _ =>
      Some (MkHoliday (normalizeDate date year).1 day name
              [normalizeState unicode_ToLower state])
  | _ => None
  end.

(** The warnings a row causes. *)
Definition row_warnings (year : Z) (r : list string) : list event :=
  match r with
  | date :: _ :: _ :: _ => (normalizeDate date year).2
  | _ => []
  end.

(** ** Vocabulary of the specification of the consolidator *)

(** No two records of different (date, name) share a merge key. *)
Definition keys_faithful (holidays : list Holiday) : Prop :=
  Forall (λ a, Forall (λ b,
    merge_key a = merge_key b → Date a = Date b ∧ Name a = Name b)
    holidays) holidays.

Global Instance keys_faithful_dec holidays : Decision (keys_faithful holidays).
Proof. unfold keys_faithful. apply _. Defined.

Definition same_date_name (a b : Holiday) : Prop :=
  Date a = Date b ∧ Name a = Name b.

Global Instance same_date_name_dec : RelDecision same_date_name.
Proof. intros a b. unfold same_date_name. apply _. Defined.

(** The lexicographic order of byte strings. *)
Inductive lex_le : string → string → Prop :=
  | lex_le_empty s : lex_le "" s
  | lex_le_lt c1 c2 s1 s2 :
      byte_val c1 < byte_val c2 → lex_le (String c1 s1) (String c2 s2)
  | lex_le_eq c s1 s2 :
      lex_le s1 s2 → lex_le (String c s1) (String c s2).

(** A page with the year's table, and a browser serving it everywhere. *)
Definition sample_page (year : Z) (rows : list (list string)) : Document :=
  [MkHeading "Upcoming holidays" None;
   MkHeading ("Public Holidays " +:+ fmt_d year)
     (Some (MkElement ["publicholidays"; "table"] rows))].

Definition new_year_row : list string :=
  ["1 Jan"; "Wednesday"; "New Year's Day"].

Definition sample_browser (rows : list (list string)) (url : string)
  : result Document :=
  Ok (sample_page 2025 rows).

(** Records to run the consolidator on: two states observing the same two
    holidays, and two records of different date and name whose merge keys
    coincide (their dates are fallback markers of unparsed cells). *)
Definition sample_holidays : list Holiday :=
  [MkHoliday "2025-02-01" "Saturday" "Federal Territory Day" ["putrajaya"];
   MkHoliday "2025-01-01" "Wednesday" "New Year's Day" ["johor"];
   MkHoliday "2025-02-01" "Sat" "Federal Territory Day" ["labuan"; "putrajaya"];
   MkHoliday "2025-01-01" "Wed" "New Year's Day" ["kedah"; "johor"]].

Definition clash_a : Holiday := MkHoliday "2025-TBC|1" "Monday" "Deepavali" ["johor"].
Definition clash_b : Holiday := MkHoliday "2025-TBC" "Tuesday" "1|Deepavali" ["kedah"].

(** The first occurrences in [l] of the strings outside [seen]: what the loop
    of [unique] appends to its output. *)
Fixpoint firsts (seen : gset string) (l : list string) : list string :=
  match l with
  | [] => []
  | s :: l' =>
      if decide (s ∈ seen) then firsts seen l'
      else s :: firsts ({[s]} ∪ seen) l'
  end.

(** The records of [holidays] filed under the merge key [k], in input
    order, and the record [Consolidate] makes of such a group: the date, day
    and name of its first member, and the states of all. *)
Definition group (k : string) (holidays : list Holiday) : list Holiday :=
  filter (λ h, merge_key h = k) holidays.

Definition merged_record (g : list Holiday) : option Holiday :=
  match g with
  | [] => None
  | h0 :: _ =>
      Some (MkHoliday (Date h0) (Day h0) (Name h0) (unique (flat_map States g)))
  end.

(** One byte of [match]. *)
Definition match_byte (a1 a2 : ascii) : bool :=
  match_fold (String a1 "") (String a2 "").

(** A string without the separator of the merge key. *)
Definition bar_free (s : string) : Prop := "|"%char ∉ list_ascii_of_string s.

(** A string that encodes runes the case table leaves alone. *)
Definition lowered (unicode_ToLower : Z → Z) (s : string) : Prop :=
  ∃ rs, Forall (λ r, valid_rune r = true) rs
        ∧ Forall (λ r, unicode_ToLower r = r) rs
        ∧ s = encode_all rs.

(** A string without the byte [c]. *)
Definition absent (c : ascii) (s : string) : Prop :=
  string_forallb (λ b, negb (Ascii.eqb b c)) s = true.

(** Records whose merged map is not visited in the order of the dates: the
    sort has work to do. *)
Definition sample_calendar : list Holiday :=
  [MkHoliday "2025-03-31" "Monday" "Hari Raya Aidilfitri" ["johor"];
   MkHoliday "2025-01-01" "Wednesday" "New Year's Day" ["johor"];
   MkHoliday "2025-02-01" "Saturday" "Federal Territory Day" ["labuan"];
   MkHoliday "2025-05-01" "Thursday" "Labour Day" ["johor"];
   MkHoliday "2025-01-01" "Wednesday" "New Year's Day" ["kedah"]].

(** ** Vocabulary of the further properties *)

(** The names of month [m], from 1 to 12. *)
Definition short_month (m : Z) : string :=
  nth (Z.to_nat (m - 1)) shortMonthNames "".
Definition long_month (m : Z) : string :=
  nth (Z.to_nat (m - 1)) longMonthNames "".

(** A string of decimal digits and hyphens. *)
Definition digits_and_hyphens (s : string) : Prop :=
  string_forallb (λ c, is_digit_char c || Ascii.eqb c "-") s = true.

(** The result of the first layout that parses, as [Month] and [Day]. *)
Definition parsed_as (dateStr : string) (m d : Z) : bool :=
  match first_parse layouts dateStr with
  | Some t => (Month t =? m) && (Day_of_month t =? d)
  | None => false
  end.

Definition unparsed (dateStr : string) : bool :=
  match first_parse layouts dateStr with
  | Some _ => false
  | None => true
  end.

Definition is_letter_byte (c : ascii) : bool :=
  is_upper_byte c || ((97 <=? byte_val c) && (byte_val c <=? 122)).

(** A result with its rest of the input lowered. *)
Definition lower_rest {A} (r : result (A * string)) : result (A * string) :=
  match r with
  | Ok (a, rest) => Ok (a, string_map lower_byte rest)
  | Err e => Err e
  end.

(** The spellings that [normalizeState] renames. *)
Definition legacy_spellings : list string :=
  ["malacca"; "kualalumpur"; "putrajayaand-selangor"; "putrajaya-selangor"].

(** What a fetch adds to the records of the driver. *)
Definition records_of (r : result (list Holiday)) : list Holiday :=
  match r with
  | Ok holidays => holidays
  | Err _ => []
  end.

(** The failures the driver has logged: state and error. *)
Definition driver_failures (log : list event) : list (string * string) :=
  omap (λ e, match e with
             | EvDriverFailed st _ err => Some (st, err)
             | _ => None
             end) log.

Definition failure_of (st : string) (r : result (list Holiday))
  : option (string * string) :=
  match r with
  | Ok _ => None
  | Err err => Some (st, err)
  end.

(** A browser that meets a timeout on the national page. *)
Definition sample_outage (rows : list (list string)) (url : string)
  : result Document :=
  if String.eqb url (buildURL "national" 2025)
  then Err "context deadline exceeded"
  else sample_browser rows url.

(** ** Output: [saveCSV], [SaveJSON] and the end of [main] *)

(** [strings.Join] *)
Fixpoint strings_Join (elems : list string) (sep : string) : string :=
  match elems with
  | [] => ""
  | e :: elems' =>
      match elems' with
      | [] => e
      | _ => e +:+ sep +:+ strings_Join elems' sep
      end
  end.

Definition quote : ascii := byte_of 34.
Definition comma : ascii := ",".
Definition newline : ascii := byte_of 10.
Definition carriage_return : ascii := byte_of 13.

(** The body of a quoted field of [csv.Writer]: a quote is doubled, and with
    [UseCRLF] unset a carriage return or a line feed is written as it is. *)
Fixpoint quoted_body (field : string) : string :=
  match field with
  | "" => ""
  | String c field' =>
      if Ascii.eqb c quote then String quote (String quote (quoted_body field'))
      else String c (quoted_body field')
  end.

Definition is_special (c : ascii) : bool :=
  Ascii.eqb c newline || Ascii.eqb c carriage_return || Ascii.eqb c quote
  || Ascii.eqb c comma.

Section Output.

(** From package [unicode]: the case table, and [unicode.IsSpace], which
    [csv.Writer] asks about the first rune of a field. *)
Variable unicode_ToLower : Z → Z.
Variable unicode_IsSpace : Z → bool.

(** The file system and the JSON encoder.  [os.Create] gives an error or a
    new, empty file.  [csv.Writer] keeps what it is given in a buffer, which
    it empties into the file when it is full: a call of [w.Write] returns
    the error of the file, if there is one, and [write_error n] is what
    the [n]-th call of a run returns, the header being call 0.  [flush_ok]
    tells whether the deferred [w.Flush()], the error of which nobody
    looks at, gets the rest of the buffer into the file.
    [json.MarshalIndent] and [os.WriteFile] give an error or succeed. *)
Variable os_Create : string → result unit.
Variable write_error : nat → option string.
Variable flush_ok : bool.
Variable json_MarshalIndent : list Holiday → result string.
Variable os_WriteFile : string → string → result unit.

(** [csv.Writer.fieldNeedsQuotes], with the comma as delimiter. *)
Definition fieldNeedsQuotes (field : string) : bool :=
  if String.eqb field "" then false
  else if String.eqb field "\." then true
  else if existsb is_special (list_ascii_of_string field) then true
  else unicode_IsSpace (DecodeRuneInString field).1.

Definition csv_field (field : string) : string :=
  if negb (fieldNeedsQuotes field) then field
  else String quote (quoted_body field +:+ String quote "").

(** [csv.Writer.Write]: the fields from the [n]-th on, a comma before each
    but the first, then the line feed. *)
Fixpoint csv_fields (n : nat) (record : list string) : string :=
  match record with
  | [] => String newline ""
  | field :: record' =>
      (if (0 <? n)%nat then String comma "" else "")
      +:+ csv_field field +:+ csv_fields (S n) record'
  end.

Definition csv_Write (record : list string) : string := csv_fields 0 record.

Definition csv_header : list string := ["Date"; "Day"; "Name"; "States"].

Definition csv_row (h : Holiday) : list string :=
  [Date h; Day h; Name h; strings_Join (States h) ";"].

(** What an output function leaves behind: the error it returns, if any,
    and the file it has written in full, if it has, as path and content. *)
Definition Saved : Type := result unit * option (string * string).

(** The lines of the records. *)
Fixpoint csv_rows (holidays : list Holiday) : string :=
  match holidays with
  | [] => ""
  | h :: holidays' => csv_Write (csv_row h) +:+ csv_rows holidays'
  end.

(** The loop of [saveCSV] over the records, from the [n]-th call of
    [w.Write] on, [written] being what the writer has been given. *)
Fixpoint write_rows (n : nat) (holidays : list Holiday) (written : string)
  : result string :=
  match holidays with
  | [] => Ok written
  | h :: holidays' =>
      match write_error n with
      | Some err => Err err
      | None =>
          write_rows (S n) holidays' (written +:+ csv_Write (csv_row h))
      end
  end.

(** [saveCSV]: an error of [os.Create] or of a [w.Write] is returned, and
    the deferred calls then leave a file that is not complete; without one
    the function returns [nil], and the file is complete if the deferred
    [w.Flush()] went well. *)
Definition saveCSV (path : string) (holidays : list Holiday) : Saved :=
  match os_Create path with
  | Err err => (Err err, None)
  | Ok _ =>
      match write_error 0 with
      | Some err => (Err err, None)
      | None =>
          match write_rows 1 holidays (csv_Write csv_header) with
          | Err err => (Err err, None)
          | Ok written =>
              (Ok tt, if flush_ok then Some (path, written) else None)
          end
      end
  end.

Definition SaveJSON (path : string) (holidays : list Holiday) : Saved :=
  match json_MarshalIndent holidays with
  | Err err => (Err err, None)
  | Ok data =>
      match os_WriteFile path data with
      | Err err => (Err err, None)
      | Ok _ => (Ok tt, Some (path, data))
      end
  end.

(** How [main] ends: by returning, after the deferred [s.Close()], or in
    [log.Fatal], which exits at once and runs no deferred call. *)
Inductive ending : Type :=
  | Returned (written : string)
  | Fatal (message : string).

Record Output : Type := MkOutput {
  out_ending : ending;
  out_file : option (string * string);
  out_closed : bool
}.

Definition after_save (filename : string) (saved : Saved) : Output :=
  match saved with
  | (Err err, file) => MkOutput (Fatal err) file false
  | (Ok _, file) => MkOutput (Returned filename) file true
  end.

(** [main] from the [switch] on. *)
Definition main_output (format out : string) (final : list Holiday)
  : Output :=
  let selector := ToLower unicode_ToLower format in
  if String.eqb selector "json" then
    let filename := out +:+ ".json" in
    after_save filename (SaveJSON filename final)
  else if String.eqb selector "csv" then
    let filename := out +:+ ".csv" in
    after_save filename (saveCSV filename final)
  else MkOutput (Fatal ("Unsupported format: " +:+ format)) None false.

(** A run of [main]: the log of the fetches and the way it ends, for one of
    the results [Consolidate] may give. *)
Definition main_run (browser : string → result Document) (year : Z)
    (format out : string) (log : list event) (output : Output) : Prop :=
  ∃ final,
    Consolidate_result (main_fetch unicode_ToLower browser year).1 final
    ∧ log = (main_fetch unicode_ToLower browser year).2
    ∧ output = main_output format out final.

End Output.

(** ** A left inverse of the encoding

    For the proofs that the file loses nothing of the records: a function
    that takes the lines of [csv.Writer] apart again.  It is made for what
    this writer writes, and is no model of a CSV library: a line feed
    outside quotes ends a record, and a carriage return is a byte like any
    other. *)

Inductive csv_state : Type := FieldStart | InField | InQuotes | AfterQuote.

Fixpoint decode_record (s : string) (state : csv_state) (field : string)
    (fields : list string) : option (list string * string) :=
  match s with
  | "" => None
  | String c rest =>
      match state with
      | FieldStart =>
          if Ascii.eqb c quote then decode_record rest InQuotes "" fields
          else if Ascii.eqb c comma
          then decode_record rest FieldStart "" (fields ++ [""])
          else if Ascii.eqb c newline then Some (fields ++ [""], rest)
          else decode_record rest InField (String c "") fields
      | InField =>
          if Ascii.eqb c quote then None
          else if Ascii.eqb c comma
          then decode_record rest FieldStart "" (fields ++ [field])
          else if Ascii.eqb c newline then Some (fields ++ [field], rest)
          else decode_record rest InField (field +:+ String c "") fields
      | InQuotes =>
          if Ascii.eqb c quote then decode_record rest AfterQuote field fields
          else decode_record rest InQuotes (field +:+ String c "") fields
      | AfterQuote =>
          if Ascii.eqb c quote
          then decode_record rest InQuotes (field +:+ String quote "") fields
          else if Ascii.eqb c comma
          then decode_record rest FieldStart "" (fields ++ [field])
          else if Ascii.eqb c newline then Some (fields ++ [field], rest)
          else None
      end
  end.

(** All the records of a string; a record takes at least one byte, so
    [String.length s] rounds suffice. *)
Fixpoint decode_records (fuel : nat) (s : string) : option (list (list string)) :=
  match s with
  | "" => Some []
  | _ =>
      match fuel with
      | O => None
      | S fuel' =>
          match decode_record s FieldStart "" [] with
          | None => None
          | Some (record, rest) =>
              match decode_records fuel' rest with
              | None => None
              | Some records => Some (record :: records)
              end
          end
      end
  end.

Definition decode_csv (s : string) : option (list (list string)) :=
  decode_records (String.length s) s.

(** Cutting a string at every [sep]. *)
Fixpoint split_on (sep : ascii) (s : string) (current : string)
  : list string :=
  match s with
  | "" => [current]
  | String c rest =>
      if Ascii.eqb c sep then current :: split_on sep rest ""
      else split_on sep rest (current +:+ String c "")
  end.

(** A file system in which every file can be made and written, and a
    stand-in for the JSON encoder. *)
Definition no_write_error (n : nat) : option string := None.
Definition create_ok (path : string) : result unit := Ok tt.
Definition write_ok (path data : string) : result unit := Ok tt.
Definition sample_marshal (holidays : list Holiday) : result string :=
  Ok "[]".
Definition sample_IsSpace (r : Z) : bool :=
  (r =? 32) || ((9 <=? r) && (r <=? 13)) || (r =? 133) || (r =? 160).

(** The record a line stands for, with the last column cut at the
    semicolons. *)
Definition holiday_of_row (row : list string) : option Holiday :=
  match row with
  | [date; day; name; sts] =>
      Some (MkHoliday date day name (split_on ";" sts ""))
  | _ => None
  end.

(** What [decode_record] does at the end of a field. *)
Definition field_end (sep : ascii) (t : string) (field : string)
    (acc : list string) : option (list string * string) :=
  if Ascii.eqb sep comma then decode_record t FieldStart "" (acc ++ [field])
  else Some (acc ++ [field], t).


(** A page whose first heading naming the year is not the one above the
    table of the holidays. *)
Definition school_heading : Heading :=
  MkHeading "School Holidays 2025" None.

Definition sample_misleading_browser (url : string) : result Document :=
  Ok (MkHeading "Upcoming holidays" None :: school_heading
      :: sample_page 2025 [new_year_row]).
(** * Properties *)

(** ** The date normalizer on examples *)

Example normalizeDate_1_Jan : normalizeDate "1 Jan" 2025 = ("2025-01-01", []).
Proof. vm_compute. reflexivity. Qed.

Example normalizeDate_2_February :
  normalizeDate "2 February" 2025 = ("2025-02-02", []).
Proof. vm_compute. reflexivity. Qed.

Example normalizeDate_case_and_spaces :
  normalizeDate "31   dEC" 2025 = ("2025-12-31", []).
Proof. vm_compute. reflexivity. Qed.

Example normalizeDate_leap_day :
  normalizeDate "29 Feb" 2025 = ("2025-02-29", []).
Proof. vm_compute. reflexivity. Qed.

Example normalizeDate_30_Feb :
  normalizeDate "30 Feb" 2025 = ("2025-30-Feb", [EvParseFailed "30 Feb"]).
Proof. vm_compute. reflexivity. Qed.

Example normalizeDate_tentative :
  normalizeDate "Jan 1 (tentative)" 2025
  = ("2025-Jan-1-(tentative)", [EvParseFailed "Jan 1 (tentative)"]).
Proof. vm_compute. reflexivity. Qed.

(** ** Facts about the date normalizer *)

Lemma Z_range_forallb (P : Z → bool) (lo : Z) (n : nat) :
  forallb P (Z_range lo n) = true →
  ∀ z, lo ≤ z < lo + Z.of_nat n → P z = true.
Proof.
  intros H z Hz. rewrite forallb_forall in H. apply H.
  apply in_map_iff. exists (Z.to_nat (z - lo)). split; [lia|].
  apply in_seq. lia.
Qed.

Lemma fmt_02d_two_digits (n : Z) : 0 ≤ n < 100 → fmt_02d n = two_digits n.
Proof.
  intros Hn.
  apply (Z_range_forallb (λ z, String.eqb (fmt_02d z) (two_digits z)) 0 100)
    in Hn; [by apply String.eqb_eq in Hn|].
  vm_compute. reflexivity.
Qed.

Lemma fmt_d_four_digits (year : Z) :
  1000 ≤ year ≤ 9999 → fmt_d year = four_digits year.
Proof.
  intros Hy.
  apply String.eqb_eq.
  apply (Z_range_forallb (λ z, String.eqb (fmt_d z) (four_digits z)) 1000 (Z.to_nat 9000));
    [|lia].
  vm_compute. reflexivity.
Qed.

Lemma lookup_from_range (tab : list string) (i : Z) (val : string) m rest :
  lookup_from i tab val = Ok (m, rest) → i ≤ m < i + Z.of_nat (length tab).
Proof.
  revert i. induction tab as [|v tab IH]; intros i; simpl; [discriminate|].
  destruct (_ && _).
  - intros [= <- _]. lia.
  - intros Hm%IH. lia.
Qed.

Lemma daysIn_le_31 (m year : Z) : daysIn m year ≤ 31.
Proof.
  unfold daysIn. repeat case_match; try lia.
  change 1 with (Z.ones 1). rewrite Z.land_ones by lia.
  pose proof (Z.mod_pos_bound (m + Z.shiftr m 3) (2 ^ 1)). lia.
Qed.

Lemma getnum_range (s : string) (fixed : bool) (d : Z) (rest : string) :
  getnum s fixed = Ok (d, rest) → 0 ≤ d ≤ 99.
Proof.
  unfold getnum, isDigit.
  destruct s as [|c0 [|c1 s]]; simpl; [done| |].
  - destruct (_ && _) eqn:E0; simpl; [|done]. destruct fixed; [done|].
    intros [= <- _]. apply andb_true_iff in E0. lia.
  - destruct (_ && _) eqn:E0; simpl; [|done].
    apply andb_true_iff in E0.
    destruct (_ && _) eqn:E1; simpl.
    + intros [= <- _]. apply andb_true_iff in E1. lia.
    + destruct fixed; [done|]. intros [= <- _]. lia.
Qed.

(** What a successful parse under either layout consists of. *)
Lemma time_Parse_inv (s : std) (value : string) (t : Time) :
  s ≠ stdDay →
  time_Parse (Layout [("", stdDay); (" ", s)] "") value = Ok t →
  ∃ d v1 v2 m,
    getnum value false = Ok (d, v1) ∧ skip v1 " " = Ok v2 ∧
    lookup (month_names s) v2 = Ok (m, "") ∧
    1 ≤ d ≤ daysIn (m + 1) 0 ∧ 0 ≤ m < 12 ∧ t = MkTime (m + 1) d.
Proof.
  intros Hs Hp. unfold time_Parse in Hp.
  cbn [chunks tail_literal parse_chunks] in Hp.
  change (skip value "") with (Ok value) in Hp. cbv iota beta in Hp.
  destruct (getnum value false) as [[d v1]|] eqn:E1; [|done].
  destruct (skip v1 " ") as [v2|] eqn:E2; [|done].
  assert (∃ m v3, lookup (month_names s) v2 = Ok (m, v3) ∧
     match skip v3 "" with
     | Err e => Err e
     | Ok value =>
        if negb (String.length value =? 0)%nat then Err "extra text"
        else
          let month := if m + 1 <? 0 then 1 else m + 1 in
          let day := if d <? 0 then 1 else d in
          if (day <? 1) || (daysIn month 0 <? day) then Err "day out of range"
          else Ok (MkTime month day)
     end = Ok t) as (m & v3 & E3 & Hp').
  { destruct s; [done| |]; simpl month_names.
    - destruct (lookup shortMonthNames v2) as [[m v3]|]; [|done]. eauto.
    - destruct (lookup longMonthNames v2) as [[m v3]|]; [|done]. eauto. }
  clear Hp. change (skip v3 "") with (Ok v3) in Hp'.
  cbv iota beta zeta in Hp'.
  destruct v3 as [|c v3]; [|done]. simpl negb in Hp'. cbv iota in Hp'.
  pose proof (lookup_from_range _ _ _ _ _ E3) as Hm.
  assert (length (month_names s) = 12%nat) as Hlen by (by destruct s).
  rewrite Hlen in Hm.
  pose proof (getnum_range _ _ _ _ E1) as Hd.
  destruct (m + 1 <? 0) eqn:?; [lia|].
  destruct (d <? 0) eqn:?; [lia|].
  destruct (_ || _) eqn:Hor; [done|]. injection Hp' as <-.
  apply orb_false_iff in Hor as [?%Z.ltb_ge ?%Z.ltb_ge].
  exists d, v1, v2, m. repeat split; try done; lia.
Qed.

Lemma layouts_shape (l : layout) :
  l ∈ layouts → ∃ s, s ≠ stdDay ∧ l = Layout [("", stdDay); (" ", s)] "".
Proof.
  unfold layouts. intros [->|[->|[]%elem_of_nil]%elem_of_cons]%elem_of_cons.
  - by exists stdMonth.
  - by exists stdLongMonth.
Qed.

Lemma time_Parse_range (l : layout) (value : string) (t : Time) :
  l ∈ layouts → time_Parse l value = Ok t →
  1 ≤ Month t ≤ 12 ∧ 1 ≤ Day_of_month t ≤ 31.
Proof.
  intros (s & Hs & ->)%layouts_shape Hp.
  apply time_Parse_inv in Hp as (d & v1 & v2 & m & _ & _ & _ & Hd & Hm & ->);
    [|done].
  pose proof (daysIn_le_31 (m + 1) 0). simpl. lia.
Qed.

Lemma first_parse_None (ls : list layout) (dateStr : string) :
  first_parse ls dateStr = None ↔
  ∀ l, l ∈ ls → ∃ e, time_Parse l dateStr = Err e.
Proof.
  induction ls as [|l ls IH]; simpl.
  - split; [by intros _ l ?%elem_of_nil|done].
  - destruct (time_Parse l dateStr) as [t|e] eqn:E.
    + split; [done|]. intros H. destruct (H l) as [e He]; [left|congruence].
    + rewrite IH. split.
      * intros H l' [->|?]%elem_of_cons; eauto.
      * intros H l' ?. apply H. by right.
Qed.

(** ** The state-name canonicalizer on examples *)

Example normalizeState_Malacca :
  normalizeState sample_ToLower "Malacca" = "melaka".
Proof. vm_compute. reflexivity. Qed.

Example normalizeState_dual_territory :
  normalizeState sample_ToLower "Putrajaya& Selangor" = "putrajaya".
Proof. vm_compute. reflexivity. Qed.

Example normalizeState_spaced_ampersand :
  normalizeState sample_ToLower "Putrajaya & Selangor"
  = "putrajaya-and-selangor".
Proof. vm_compute. reflexivity. Qed.

Example normalizeState_non_ASCII :
  normalizeState sample_ToLower "MÉLAKA Tengah" = "mélaka-tengah".
Proof. vm_compute. reflexivity. Qed.

Example normalizeState_Kuala_Lumpur :
  normalizeState sample_ToLower "Kuala Lumpur" = "kuala-lumpur".
Proof. vm_compute. reflexivity. Qed.

(** ** The pipeline on examples *)

Example FetchState_sample :
  FetchState sample_ToLower
    (sample_browser [new_year_row; ["stray"]; ["Feb 30th"; "Sunday"; "Nothing"]])
    "Kuala Lumpur" 2025
  = (Ok [MkHoliday "2025-01-01" "Wednesday" "New Year's Day" ["kuala-lumpur"];
         MkHoliday "2025-Feb-30th" "Sunday" "Nothing" ["kuala-lumpur"]],
     [EvFetching "Kuala Lumpur" 2025
        "https://publicholidays.com.my/Kuala Lumpur/2025-dates/";
      EvParseFailed "Feb 30th";
      EvFetched 2 "Kuala Lumpur" 2025]).
Proof. vm_compute. reflexivity. Qed.

Example Consolidate_sample :
  Consolidate
    [MkHoliday "2025-02-01" "Saturday" "Federal Territory Day" ["putrajaya"];
     MkHoliday "2025-01-01" "Wednesday" "New Year's Day" ["johor"];
     MkHoliday "2025-02-01" "Sat" "Federal Territory Day" ["labuan"; "putrajaya"];
     MkHoliday "2025-01-01" "Wed" "New Year's Day" ["kedah"; "johor"]]
  = [MkHoliday "2025-01-01" "Wednesday" "New Year's Day" ["johor"; "kedah"];
     MkHoliday "2025-02-01" "Saturday" "Federal Territory Day"
       ["putrajaya"; "labuan"]].
Proof. vm_compute. reflexivity. Qed.

(** The two layouts never disagree: only ["May"] is both an abbreviated and
    a full month name. *)
Lemma match_fold_cons (a1 a2 : ascii) (s1 s2 : string) :
  match_fold (String a1 s1) (String a2 s2)
  = match_byte a1 a2 && match_fold s1 s2.
Proof.
  unfold match_byte. simpl.
  destruct (byte_val a1 =? byte_val a2); [by destruct (match_fold s1 s2)|].
  destruct (_ || _); [done|]. by destruct (match_fold s1 s2).
Qed.

Lemma match_byte_letter (a c : ascii) :
  c ∈ ["M"; "a"; "y"]%char → match_byte a c = true →
  a = c ∨ byte_val a = Z.lxor (byte_val c) 32.
Proof.
  intros Hc.
  repeat (apply elem_of_cons in Hc as [->|Hc]); [| | |by apply elem_of_nil in Hc];
    destruct a as [[] [] [] [] [] [] [] []]; vm_compute;
    first [discriminate | by left | by right].
Qed.

Lemma string_from_empty_length (n : nat) (s : string) :
  (n ≤ String.length s)%nat → string_from n s = "" → String.length s = n.
Proof.
  revert s. induction n as [|n IH]; intros [|c s]; simpl; try done; try lia.
  intros ? ?. f_equal. apply IH; [lia|done].
Qed.

Lemma lookup_from_full (tab : list string) (i : Z) (val : string) (m : Z) :
  lookup_from i tab val = Ok (m, "") →
  ∃ v, tab !! Z.to_nat (m - i) = Some v ∧ i ≤ m
       ∧ String.length val = String.length v.
Proof.
  revert i. induction tab as [|v tab IH]; intros i; simpl; [done|].
  destruct (_ && _) eqn:E.
  - intros [= <- Hrest]. exists v. rewrite Z.sub_diag. split; [done|].
    split; [lia|].
    apply andb_true_iff in E as [E%Nat.leb_le _].
    by apply string_from_empty_length.
  - intros (v' & Hv' & ? & ?)%IH. exists v'.
    replace (Z.to_nat (m - i)) with (S (Z.to_nat (m - (i + 1)))) by lia.
    split; [done|]. split; [lia|done].
Qed.

Lemma time_Parse_agree (value : string) (t1 t2 : Time) :
  time_Parse layout_2_Jan value = Ok t1 →
  time_Parse layout_2_January value = Ok t2 → t1 = t2.
Proof.
  intros (d & v1 & v2 & m & Hd & Hs & Hm & _ & Hm12 & ->)%time_Parse_inv;
    [|done].
  intros (d' & v1' & v2' & m' & Hd' & Hs' & Hm' & _ & Hm12' & ->)%time_Parse_inv;
    [|done].
  rewrite Hd in Hd'. injection Hd' as <- <-.
  rewrite Hs in Hs'. injection Hs' as <-.
  simpl month_names in *. f_equal. f_equal.
  pose proof (lookup_from_full _ _ _ _ Hm) as (v & Hv & _ & Hlen).
  pose proof (lookup_from_full _ _ _ _ Hm') as (v' & Hv' & _ & Hlen').
  assert (String.length v = 3%nat) as Hv3.
  { apply list_elem_of_lookup_2 in Hv. unfold shortMonthNames in Hv.
    repeat (apply elem_of_cons in Hv as [->|Hv]); try done.
    by apply elem_of_nil in Hv. }
  assert (m' = 4) as ->.
  { rewrite Z.sub_0_r in Hv'.
    assert (m' = 0 ∨ m' = 1 ∨ m' = 2 ∨ m' = 3 ∨ m' = 4 ∨ m' = 5 ∨ m' = 6
            ∨ m' = 7 ∨ m' = 8 ∨ m' = 9 ∨ m' = 10 ∨ m' = 11) as Hc by lia.
    destruct Hc as [->|[->|[->|[->|[->|[->|[->|[->|[->|[->|[->| ->]]]]]]]]]]];
      try done; injection Hv' as <-; simpl in Hlen'; lia. }
  rewrite Hlen, Hv3 in *.
  destruct v2 as [|a [|b [|c [|? ?]]]]; try done.
  unfold lookup, longMonthNames in Hm'. cbn -[match_fold] in Hm'.
  destruct (match_fold _ _) eqn:Hmay in Hm'; [|done].
  rewrite !match_fold_cons in Hmay.
  apply andb_true_iff in Hmay as [Ha [Hb [Hc _]%andb_true_iff]%andb_true_iff].
  apply match_byte_letter in Ha; [|by repeat constructor].
  apply match_byte_letter in Hb; [|by repeat constructor].
  apply match_byte_letter in Hc; [|by repeat constructor].
  assert (∀ x y : ascii, byte_val x = byte_val y → x = y) as Hinj.
  { intros x y Hxy. unfold byte_val in Hxy.
    rewrite <-(ascii_N_embedding x), <-(ascii_N_embedding y). f_equal. lia. }
  assert (a = "M" ∨ a = "m")%char as Ha'.
  { destruct Ha as [->|Ha]; [by left|right]. by apply Hinj. }
  assert (b = "a" ∨ b = "A")%char as Hb'.
  { destruct Hb as [->|Hb]; [by left|right]. by apply Hinj. }
  assert (c = "y" ∨ c = "Y")%char as Hc'.
  { destruct Hc as [->|Hc]; [by left|right]. by apply Hinj. }
  destruct Ha' as [-> | ->], Hb' as [-> | ->], Hc' as [-> | ->];
    vm_compute in Hm; by injection Hm.
Qed.

Lemma first_parse_layouts (dateStr : string) (l : layout) (t : Time) :
  l ∈ layouts → time_Parse l dateStr = Ok t →
  first_parse layouts dateStr = Some t.
Proof.
  unfold layouts. simpl.
  intros [->|[->|[]%elem_of_nil]%elem_of_cons]%elem_of_cons Hp.
  - by rewrite Hp.
  - destruct (time_Parse layout_2_Jan dateStr) as [t1|] eqn:E1.
    + f_equal. by eapply time_Parse_agree.
    + by rewrite Hp.
Qed.

Lemma is_YYYY_MM_DD_digits (y m d : Z) :
  1000 ≤ y ≤ 9999 → 0 ≤ m < 100 → 0 ≤ d < 100 →
  is_YYYY_MM_DD (four_digits y +:+ "-" +:+ two_digits m +:+ "-" +:+ two_digits d)
  = true.
Proof.
  intros Hy Hm Hd.
  assert (∀ k, 0 ≤ k < 10 → is_digit_char (digit_char k) = true) as Hdig.
  { intros k Hk.
    by apply (Z_range_forallb (λ k, is_digit_char (digit_char k)) 0 10). }
  cbv [four_digits two_digits is_YYYY_MM_DD append list_ascii_of_string forallb].
  rewrite !Hdig; [done|..]; Z.div_mod_to_equations; lia.
Qed.

Lemma ReplaceAll_hyphenate (s : string) : ReplaceAll s " " "-" = hyphenate s.
Proof.
  induction s as [|c s IH]; simpl; [done|].
  destruct (Ascii.eqb c " "); by rewrite IH.
Qed.

(** ** The writer monad *)

Lemma log_bind_fst {A B} (m : Log A) (k : A → Log B) :
  (log_bind m k).1 = (k m.1).1.
Proof. destruct m as [a l]. simpl. by destruct (k a). Qed.

Lemma log_bind_snd {A B} (m : Log A) (k : A → Log B) :
  (log_bind m k).2 = m.2 ++ (k m.1).2.
Proof. destruct m as [a l]. simpl. by destruct (k a). Qed.

Lemma log_eq {A} (m : Log A) : m = (m.1, m.2).
Proof. by destruct m. Qed.

(** ** The page extractor *)

Lemma row_warnings_dispatched (year : Z) (rows : list (list string)) :
  dispatched (flat_map (row_warnings year) rows) = [].
Proof.
  unfold dispatched. induction rows as [|r rows IH]; [done|].
  simpl. rewrite omap_app, IH, app_nil_r.
  destruct r as [|r0 [|r1 [|r2 r]]]; try done. simpl.
  unfold normalizeDate. by destruct (first_parse layouts r0).
Qed.

Section Extractor.

Context (unicode_ToLower : Z → Z) (browser : string → result Document).

Lemma rows_loop_spec (rows : list (list string)) (state : string) (year : Z)
    (holidays : list Holiday) :
  rows_loop unicode_ToLower rows state year holidays
  = (holidays ++ omap (record_of_row unicode_ToLower state year) rows,
     flat_map (row_warnings year) rows).
Proof.
  revert holidays. induction rows as [|r rows IH]; intros holidays; simpl.
  { by rewrite app_nil_r. }
  destruct r as [|r0 [|r1 [|r2 r]]]; simpl; try apply IH.
  rewrite (log_eq (log_bind _ _)), log_bind_fst, log_bind_snd, IH. simpl.
  by rewrite <-app_assoc.
Qed.

Lemma short_row_discarded (state : string) (year : Z) (r : list string) :
  (length r < 3)%nat →
  record_of_row unicode_ToLower state year r = None ∧ row_warnings year r = [].
Proof. destruct r as [|r0 [|r1 [|r2 r]]]; simpl; [done..|lia]. Qed.

Lemma FetchState_loaded (state : string) (year : Z) (document : Document) :
  browser (buildURL state year) = Ok document →
  FetchState unicode_ToLower browser state year
  = let rows := rows_script year document in
    let holidays := omap (record_of_row unicode_ToLower state year) rows in
    (Ok holidays,
     EvFetching state year (buildURL state year)
     :: match rows with
        | [] => [EvNoRows state year]
        | _ => flat_map (row_warnings year) rows
               ++ [EvFetched (length holidays) state year]
        end).
Proof.
  intros Hb. unfold FetchState. rewrite Hb.
  destruct (rows_script year document) as [|r rows] eqn:Hrows; [done|].
  cbn [length Nat.eqb]. rewrite rows_loop_spec. reflexivity.
Qed.

Lemma FetchState_dispatched (state : string) (year : Z) :
  dispatched (FetchState unicode_ToLower browser state year).2 = [state].
Proof.
  destruct (browser (buildURL state year)) as [document|err] eqn:Hb.
  - rewrite (FetchState_loaded _ _ _ Hb). cbn zeta. cbn [snd].
    destruct (rows_script year document) as [|r rows]; [done|].
    change (dispatched (?e :: ?l)) with (state :: dispatched l).
    f_equal. unfold dispatched. rewrite omap_app.
    fold (dispatched (flat_map (row_warnings year) (r :: rows))).
    by rewrite row_warnings_dispatched.
  - unfold FetchState. by rewrite Hb.
Qed.

Lemma fetch_loop_cons (i n : nat) (st : string) (sts : list string)
    (year : Z) (all : list Holiday) :
  fetch_loop unicode_ToLower browser i n (st :: sts) year all
  = (log_Printf (EvDriverFetching (i + 1) n st year) ;;;
     r <~ FetchState unicode_ToLower browser st year ;;
     match r with
     | Err err =>
         log_Printf (EvDriverFailed st year err) ;;;
         fetch_loop unicode_ToLower browser (S i) n sts year all
     | Ok holidays =>
         fetch_loop unicode_ToLower browser (S i) n sts year (all ++ holidays)
     end).
Proof. reflexivity. Qed.

Lemma fetch_loop_dispatched (i n : nat) (sts : list string) (year : Z)
    (all : list Holiday) :
  dispatched (fetch_loop unicode_ToLower browser i n sts year all).2 = sts.
Proof.
  revert i all. induction sts as [|st sts IH]; intros i all; [done|].
  rewrite fetch_loop_cons, !log_bind_snd.
  unfold dispatched in *. rewrite !omap_app.
  fold (dispatched (FetchState unicode_ToLower browser st year).2).
  rewrite FetchState_dispatched. cbn [log_Printf snd omap app]. f_equal.
  destruct (FetchState unicode_ToLower browser st year).1; [by rewrite IH|].
  rewrite log_bind_snd, omap_app. cbn [log_Printf snd fst].
  by rewrite IH.
Qed.

End Extractor.

(** The fuel of [skip] is never used up. *)
Lemma cutspace_length (s : string) :
  (String.length (cutspace s) ≤ String.length s)%nat.
Proof.
  induction s as [|c s IH]; simpl; [done|].
  destruct (Ascii.eqb c " "); simpl; lia.
Qed.

Lemma skip_loop_fuel (n m : nat) (value prefix : string) :
  (String.length prefix ≤ n)%nat → (String.length prefix ≤ m)%nat →
  skip_loop n value prefix = skip_loop m value prefix.
Proof.
  revert m value prefix.
  induction n as [|n IH]; intros [|m] value [|p prefix]; simpl;
    try done; try lia.
  intros Hn Hm. destruct (Ascii.eqb p " ").
  - pose proof (cutspace_length prefix).
    destruct value as [|v value]; [apply IH; lia|].
    destruct (negb _); [done|]. apply IH; lia.
  - destruct value as [|v value]; [done|].
    destruct (Ascii.eqb v p); [|done]. apply IH; lia.
Qed.

Lemma skip_loop_enough (n : nat) (value prefix : string) :
  (String.length prefix ≤ n)%nat → skip_loop n value prefix = skip value prefix.
Proof. intros Hn. by apply skip_loop_fuel. Qed.

(** ** [unique] *)

Lemma unique_loop_firsts (input : list string) (seen : gmap string bool)
    (X : gset string) (out : list string) :
  (∀ s, seen_at seen s = bool_decide (s ∈ X)) →
  unique_loop input seen out = out ++ firsts X input.
Proof.
  revert seen X out.
  induction input as [|s input IH]; intros seen X out Hseen; simpl.
  { by rewrite app_nil_r. }
  rewrite Hseen. destruct (decide (s ∈ X)) as [Hin|Hout].
  - rewrite bool_decide_eq_true_2 by done. simpl. by apply IH.
  - rewrite bool_decide_eq_false_2 by done. simpl.
    rewrite (IH _ ({[s]} ∪ X)), <-app_assoc; [done|].
    intros s'. unfold seen_at. destruct (decide (s = s')) as [->|Hne].
    + rewrite lookup_insert_eq. simpl. symmetry.
      apply bool_decide_eq_true_2. set_solver.
    + rewrite lookup_insert_ne by done.
      fold (seen_at seen s'). rewrite Hseen.
      apply bool_decide_ext. set_solver.
Qed.

Lemma unique_firsts (l : list string) : unique l = firsts ∅ l.
Proof.
  unfold unique. rewrite (unique_loop_firsts l ∅ ∅ []); [done|].
  intros s. unfold seen_at. rewrite lookup_empty. simpl. symmetry.
  apply bool_decide_eq_false_2. set_solver.
Qed.

Lemma elem_of_firsts (X : gset string) (l : list string) (x : string) :
  x ∈ firsts X l ↔ x ∈ l ∧ x ∉ X.
Proof.
  revert X. induction l as [|s l IH]; intros X; simpl.
  { set_solver. }
  destruct (decide (s ∈ X)).
  - rewrite IH. set_solver.
  - rewrite elem_of_cons, IH. destruct (decide (x = s)); set_solver.
Qed.

Lemma NoDup_firsts (X : gset string) (l : list string) : NoDup (firsts X l).
Proof.
  revert X. induction l as [|s l IH]; intros X; simpl; [constructor|].
  destruct (decide (s ∈ X)); [apply IH|].
  constructor; [|apply IH]. rewrite elem_of_firsts. set_solver.
Qed.

Lemma firsts_app (X : gset string) (l1 l2 : list string) :
  firsts X (l1 ++ l2) = firsts X l1 ++ firsts (X ∪ list_to_set l1) l2.
Proof.
  revert X. induction l1 as [|s l1 IH]; intros X; simpl.
  { by rewrite (right_id_L ∅ (∪)). }
  destruct (decide (s ∈ X)).
  - rewrite IH. do 2 f_equal. set_solver.
  - simpl. rewrite IH. do 3 f_equal. set_solver.
Qed.

Lemma firsts_NoDup_id (X : gset string) (l : list string) :
  NoDup l → (∀ x, x ∈ l → x ∉ X) → firsts X l = l.
Proof.
  revert X. induction l as [|s l IH]; intros X Hnd HS; simpl; [done|].
  apply NoDup_cons in Hnd as [Hs Hnd].
  rewrite decide_False by set_solver. f_equal.
  apply IH; [done|]. intros x Hx. set_solver.
Qed.

Lemma elem_of_unique (l : list string) (x : string) : x ∈ unique l ↔ x ∈ l.
Proof. rewrite unique_firsts, elem_of_firsts. set_solver. Qed.

Lemma NoDup_unique (l : list string) : NoDup (unique l).
Proof. rewrite unique_firsts. apply NoDup_firsts. Qed.

(** Deduplicating an already deduplicated prefix again changes nothing. *)
Lemma unique_unique_app (l1 l2 : list string) :
  unique (unique l1 ++ l2) = unique (l1 ++ l2).
Proof.
  rewrite !unique_firsts, !firsts_app. f_equal.
  - apply firsts_NoDup_id; [apply NoDup_firsts|set_solver].
  - f_equal. apply set_eq. intros x.
    rewrite !elem_of_union, !elem_of_list_to_set, elem_of_firsts. set_solver.
Qed.

(** ** The merging loop *)

Lemma merge_all_snoc (holidays : list Holiday) (h : Holiday) :
  merge_all (holidays ++ [h]) = merge_step (merge_all holidays) h.
Proof. unfold merge_all. by rewrite foldl_snoc. Qed.

Lemma group_snoc (k : string) (holidays : list Holiday) (h : Holiday) :
  group k (holidays ++ [h])
  = group k holidays ++ (if decide (merge_key h = k) then [h] else []).
Proof.
  unfold group. by rewrite filter_app.
Qed.

(** What the loop has filed under a key after reading [holidays]. *)
Lemma merge_all_lookup (holidays : list Holiday) (k : string) :
  merge_all holidays !! k = merged_record (group k holidays).
Proof.
  induction holidays as [|h holidays IH] using rev_ind; [done|].
  rewrite merge_all_snoc, group_snoc. unfold merge_step.
  destruct (decide (merge_key h = k)) as [<-|Hne].
  - rewrite IH.
    destruct (group (merge_key h) holidays) as [|h0 g] eqn:Hg; simpl.
    + rewrite lookup_insert_eq. by rewrite app_nil_r.
    + rewrite lookup_insert_eq. do 2 f_equal.
      rewrite unique_unique_app. f_equal.
      change (States h0 ++ flat_map States g) with (flat_map States (h0 :: g)).
      change (States h0 ++ flat_map States (g ++ [h]))
        with (flat_map States ((h0 :: g) ++ [h])).
      rewrite flat_map_app. simpl. by rewrite app_nil_r.
  - rewrite app_nil_r.
    destruct (merge_all holidays !! merge_key h);
      by rewrite lookup_insert_ne.
Qed.

Lemma merged_record_Some (g : list Holiday) (o : Holiday) :
  merged_record g = Some o →
  ∃ h0 g', g = h0 :: g' ∧ Date o = Date h0 ∧ Day o = Day h0
           ∧ Name o = Name h0 ∧ States o = unique (flat_map States g).
Proof.
  destruct g as [|h0 g']; simpl; [done|]. intros [= <-]. by exists h0, g'.
Qed.

Lemma group_cons_inv (k : string) (holidays : list Holiday) h0 g' :
  group k holidays = h0 :: g' →
  merge_key h0 = k ∧
  ∃ pre post, holidays = pre ++ h0 :: post
              ∧ ∀ x, x ∈ pre → merge_key x ≠ k.
Proof.
  unfold group. induction holidays as [|h holidays IH]; [done|].
  rewrite filter_cons. destruct (decide (merge_key h = k)) as [Hk|Hk].
  - intros [= -> <-]. split; [done|]. exists [], holidays.
    split; [done|]. by intros x ?%elem_of_nil.
  - intros (Hk0 & pre & post & -> & Hpre)%IH. split; [done|].
    exists (h :: pre), post. split; [done|].
    intros x [->|?]%elem_of_cons; auto.
Qed.

Lemma group_first (holidays pre post : list Holiday) (h0 : Holiday) :
  holidays = pre ++ h0 :: post →
  (∀ x, x ∈ pre → merge_key x ≠ merge_key h0) →
  group (merge_key h0) holidays = h0 :: group (merge_key h0) post.
Proof.
  intros -> Hpre. unfold group. rewrite filter_app, filter_cons_True by done.
  replace (filter _ pre) with (@nil Holiday); [done|].
  symmetry. induction pre as [|x pre IH]; [done|].
  rewrite filter_cons_False; [|apply Hpre; by left].
  apply IH. intros y ?. apply Hpre. by right.
Qed.

Lemma elem_of_group (k : string) (holidays : list Holiday) (h : Holiday) :
  h ∈ group k holidays ↔ merge_key h = k ∧ h ∈ holidays.
Proof. unfold group. by rewrite list_elem_of_filter. Qed.

Lemma merge_all_key (holidays : list Holiday) (k : string) (o : Holiday) :
  merge_all holidays !! k = Some o → merge_key o = k.
Proof.
  rewrite merge_all_lookup.
  intros (h0 & g' & Hg & Hd & _ & Hn & _)%merged_record_Some.
  apply group_cons_inv in Hg as [<- _].
  unfold merge_key. by rewrite Hd, Hn.
Qed.

(** ** The results of [Consolidate] *)

Lemma Consolidate_result_elem (holidays res : list Holiday) (o : Holiday) :
  Consolidate_result holidays res →
  o ∈ res ↔ merge_all holidays !! merge_key o = Some o.
Proof.
  intros [Hperm _]. rewrite Hperm, list_elem_of_fmap. split.
  - intros ([k o'] & -> & Hin%elem_of_map_to_list). simpl.
    by rewrite (merge_all_key _ _ _ Hin).
  - intros Hin. exists (merge_key o, o). split; [done|].
    by apply elem_of_map_to_list.
Qed.

Lemma Consolidate_result_keys_NoDup (holidays res : list Holiday) :
  Consolidate_result holidays res → NoDup (merge_key <$> res).
Proof.
  intros [Hperm _]. rewrite Hperm.
  replace (merge_key <$> (map_to_list (merge_all holidays)).*2)
    with ((map_to_list (merge_all holidays)).*1);
    [apply NoDup_fst_map_to_list|].
  rewrite <-list_fmap_compose. symmetry. apply Forall_fmap_ext_1.
  apply Forall_forall. intros [k o] Hin%elem_of_map_to_list. simpl.
  by apply merge_all_key in Hin.
Qed.

(** Every key of the input is filed, and every record of a result is the
    one filed under its key. *)
Lemma Consolidate_result_key (holidays res : list Holiday) (h : Holiday) :
  Consolidate_result holidays res → h ∈ holidays →
  ∃ o, o ∈ res ∧ merged_record (group (merge_key h) holidays) = Some o
       ∧ merge_key o = merge_key h
       ∧ ∀ o', o' ∈ res → merge_key o' = merge_key h → o' = o.
Proof.
  intros Hres Hh.
  destruct (merged_record (group (merge_key h) holidays)) as [o|] eqn:Ho.
  - assert (merge_all holidays !! merge_key h = Some o) as Hm
      by by rewrite merge_all_lookup.
    pose proof (merge_all_key _ _ _ Hm) as Hk.
    exists o. split; [|split; [done|split; [done|]]].
    + apply (Consolidate_result_elem _ _ _ Hres). by rewrite Hk.
    + intros o' Ho'%(Consolidate_result_elem _ _ _ Hres) Hk'.
      rewrite Hk' in Ho'. congruence.
  - exfalso. assert (h ∈ group (merge_key h) holidays) as Hg
      by by apply elem_of_group.
    destruct (group (merge_key h) holidays); [by apply elem_of_nil in Hg|done].
Qed.

Lemma Consolidate_result_origin (holidays res : list Holiday) (o : Holiday) :
  Consolidate_result holidays res → o ∈ res →
  merged_record (group (merge_key o) holidays) = Some o.
Proof.
  intros Hres Ho%(Consolidate_result_elem _ _ _ Hres).
  by rewrite <-merge_all_lookup.
Qed.

Lemma elem_of_flat_map_States (g : list Holiday) (s : string) :
  s ∈ flat_map States g ↔ ∃ h, h ∈ g ∧ s ∈ States h.
Proof.
  rewrite list_elem_of_In, in_flat_map.
  split; intros (h & Hh & Hs); exists h;
    by rewrite ?list_elem_of_In in *.
Qed.

Lemma keys_faithful_spec (holidays : list Holiday) (a b : Holiday) :
  keys_faithful holidays → a ∈ holidays → b ∈ holidays →
  merge_key a = merge_key b → Date a = Date b ∧ Name a = Name b.
Proof.
  unfold keys_faithful. rewrite Forall_forall. intros H Ha Hb.
  specialize (H a Ha). rewrite Forall_forall in H. by apply H.
Qed.

Lemma keys_faithful_Permutation (l1 l2 : list Holiday) :
  l1 ≡ₚ l2 → keys_faithful l1 → keys_faithful l2.
Proof.
  intros Hp H. unfold keys_faithful. apply Forall_forall. intros a Ha.
  apply Forall_forall. intros b Hb.
  rewrite <-Hp in Ha, Hb. by apply (keys_faithful_spec l1).
Qed.

(** A date without ["|"] can be read back from the merge key, so such
    dates, and the dates [YYYY-MM-DD] among them, make the keys faithful. *)
Lemma merge_key_bar_free (d1 d2 n1 n2 : string) :
  bar_free d1 → bar_free d2 →
  d1 +:+ "|" +:+ n1 = d2 +:+ "|" +:+ n2 → d1 = d2 ∧ n1 = n2.
Proof.
  unfold bar_free. revert d2.
  induction d1 as [|c1 d1 IH]; intros [|c2 d2]; cbn; intros H1 H2 Heq.
  - by injection Heq.
  - injection Heq as <- _. exfalso. apply H2. by left.
  - injection Heq as -> _. exfalso. apply H1. by left.
  - injection Heq as -> Heq.
    destruct (IH d2) as [-> ->]; try done.
    + intros ?. apply H1. by right.
    + intros ?. apply H2. by right.
Qed.

Lemma bar_free_keys_faithful (holidays : list Holiday) :
  Forall (λ h, bar_free (Date h)) holidays → keys_faithful holidays.
Proof.
  rewrite Forall_forall. intros Hbar.
  apply Forall_forall. intros a Ha. apply Forall_forall. intros b Hb.
  apply merge_key_bar_free; by apply Hbar.
Qed.

(** ** Sorting by date *)

Lemma byte_val_inj (x y : ascii) : byte_val x = byte_val y → x = y.
Proof.
  unfold byte_val. intros Hxy.
  rewrite <-(ascii_N_embedding x), <-(ascii_N_embedding y). f_equal. lia.
Qed.

Lemma compare_lex_le (s1 s2 : string) :
  String.compare s1 s2 ≠ Gt → lex_le s1 s2.
Proof.
  revert s2. induction s1 as [|c1 s1 IH]; intros [|c2 s2]; simpl.
  1-2: intros _; apply lex_le_empty.
  { done. }
  unfold Ascii.compare.
  destruct (N_of_ascii c1 ?= N_of_ascii c2)%N eqn:Hc; try done.
  - apply N.compare_eq in Hc. intros Hle%IH.
    replace c2 with c1; [by constructor|].
    apply byte_val_inj. unfold byte_val. by rewrite Hc.
  - intros _. apply lex_le_lt. unfold byte_val.
    rewrite N.compare_lt_iff in Hc. lia.
Qed.

Lemma lex_le_compare (s1 s2 : string) :
  lex_le s1 s2 → String.compare s1 s2 ≠ Gt.
Proof.
  induction 1 as [s|c1 c2 s1 s2 Hlt|c s1 s2 _ IH]; simpl.
  - by destruct s.
  - unfold Ascii.compare.
    replace (N_of_ascii c1 ?= N_of_ascii c2)%N with Lt; [done|].
    symmetry. rewrite N.compare_lt_iff. unfold byte_val in Hlt. lia.
  - unfold Ascii.compare. by rewrite N.compare_refl.
Qed.

Global Instance lex_le_trans : Transitive lex_le.
Proof.
  intros s1 s2 s3 H12. revert s3.
  induction H12 as [s|c1 c2 s1 s2 Hlt|c s1 s2 _ IH]; intros s3 H23.
  - constructor.
  - inversion H23; subst; apply lex_le_lt; [lia|done].
  - inversion H23; subst; [by apply lex_le_lt|apply lex_le_eq; auto].
Qed.

Lemma not_after_lex_le (a b : Holiday) :
  not_after a b ↔ lex_le (Date a) (Date b).
Proof.
  unfold not_after, less, String.ltb.
  rewrite String.compare_antisym. split.
  - intros H. apply compare_lex_le.
    by destruct (String.compare (Date a) (Date b)).
  - intros H%lex_le_compare.
    by destruct (String.compare (Date a) (Date b)).
Qed.

Global Instance not_after_trans : Transitive not_after.
Proof.
  intros a b c. rewrite !not_after_lex_le. apply lex_le_trans.
Qed.

Global Instance not_after_total : Total not_after.
Proof.
  intros a b. unfold not_after, less, String.ltb.
  rewrite (String.compare_antisym (Date a)).
  destruct (String.compare (Date b) (Date a)); auto.
Qed.

Lemma StronglySorted_lookup {A} (R : relation A) (l : list A) (i j : nat) a b :
  StronglySorted R l → (i < j)%nat → l !! i = Some a → l !! j = Some b →
  R a b.
Proof.
  intros Hs. revert i j. induction Hs as [|x l Hs IH Hx]; intros i j Hij Hi Hj.
  { by rewrite lookup_nil in Hi. }
  destruct j as [|j]; [lia|]. simpl in Hj. destruct i as [|i].
  - injection Hi as <-. rewrite Forall_forall in Hx. apply Hx.
    by eapply list_elem_of_lookup_2.
  - simpl in Hi. apply (IH i j); [lia|done..].
Qed.

(** [Consolidate] returns, and what it returns is one of the results the Go
    function may give. *)
Lemma Consolidate_admissible (holidays : list Holiday) :
  Consolidate_result holidays (Consolidate holidays).
Proof.
  split; [apply merge_sort_Permutation|].
  apply (Sorted_merge_sort not_after).
Qed.


(** ** Bytes *)

Lemma byte_val_range (c : ascii) : 0 ≤ byte_val c < 256.
Proof. unfold byte_val. pose proof (N_ascii_bounded c). lia. Qed.

Lemma byte_val_of (z : Z) : 0 ≤ z < 256 → byte_val (byte_of z) = z.
Proof.
  intros Hz. unfold byte_val, byte_of. rewrite N_ascii_embedding; lia.
Qed.

Lemma byte_of_val (c : ascii) : byte_of (byte_val c) = c.
Proof.
  unfold byte_val, byte_of. rewrite N2Z.id. apply ascii_N_embedding.
Qed.

Lemma string_app_cons (c : ascii) (s1 s2 : string) :
  String c s1 +:+ s2 = String c (s1 +:+ s2).
Proof. reflexivity. Qed.

Lemma string_app_nil_l (s : string) : "" +:+ s = s.
Proof. reflexivity. Qed.

Lemma string_app_assoc (s1 s2 s3 : string) :
  (s1 +:+ s2) +:+ s3 = s1 +:+ (s2 +:+ s3).
Proof.
  induction s1 as [|c s1 IH]; [done|]. by rewrite !string_app_cons, IH.
Qed.

Lemma string_app_nil_r (s : string) : s +:+ "" = s.
Proof. induction s as [|c s IH]; [done|]. by rewrite string_app_cons, IH. Qed.

Lemma string_from_app (s1 s2 : string) :
  string_from (String.length s1) (s1 +:+ s2) = s2.
Proof.
  induction s1 as [|c s1 IH]; [done|]. rewrite string_app_cons. simpl.
  by rewrite IH.
Qed.

Lemma string_from_length (n : nat) (s : string) :
  String.length (string_from n s) = (String.length s - n)%nat.
Proof.
  revert s. induction n as [|n IH]; intros [|c s]; simpl; try done.
Qed.

(** ** The UTF-8 codec *)

(** Settle the comparisons of a goal by linear arithmetic. *)
Ltac settle_tests :=
  repeat match goal with
  | |- context [Z.leb ?a ?b] =>
      first [ rewrite (proj2 (Z.leb_le a b)) by (Z.div_mod_to_equations; lia)
            | rewrite (proj2 (Z.leb_gt a b)) by (Z.div_mod_to_equations; lia) ]
  | |- context [Z.ltb ?a ?b] =>
      first [ rewrite (proj2 (Z.ltb_lt a b)) by (Z.div_mod_to_equations; lia)
            | rewrite (proj2 (Z.ltb_ge a b)) by (Z.div_mod_to_equations; lia) ]
  | |- context [Z.eqb ?a ?b] =>
      first [ rewrite (proj2 (Z.eqb_eq a b)) by (Z.div_mod_to_equations; lia)
            | rewrite (proj2 (Z.eqb_neq a b)) by (Z.div_mod_to_equations; lia) ]
  end.

Lemma valid_rune_range (r : Z) :
  valid_rune r = true ↔ 0 ≤ r < 55296 ∨ 57343 < r ≤ MaxRune.
Proof. unfold valid_rune, MaxRune. lia. Qed.

Lemma EncodeRune_ascii (r : Z) :
  0 ≤ r < 128 → EncodeRune r = String (byte_of r) "".
Proof. intros Hr. unfold EncodeRune. by settle_tests. Qed.

(** Decoding what was encoded: the rune, and the rest untouched. *)
Lemma DecodeRune_EncodeRune (r : Z) (rest : string) :
  valid_rune r = true →
  ∃ n, String.length (EncodeRune r) = S n
       ∧ DecodeRuneInString (EncodeRune r +:+ rest) = (r, S n).
Proof.
  intros Hr%valid_rune_range. unfold MaxRune in Hr.
  assert (0 ≤ r < 128 ∨ 128 ≤ r < 2048 ∨ 2048 ≤ r < 4096
          ∨ 4096 ≤ r < 53248 ∨ 53248 ≤ r < 55296 ∨ 57344 ≤ r < 65536
          ∨ 65536 ≤ r < 262144 ∨ 262144 ≤ r < 1048576
          ∨ 1048576 ≤ r ≤ 1114111) as Hcase by lia.
  unfold EncodeRune, valid_rune, MaxRune, RuneError, bytes.
  destruct Hcase as [H|[H|[H|[H|[H|[H|[H|[H|H]]]]]]]];
    settle_tests; cbn [andb orb negb map string_of_list_ascii];
    rewrite ?string_app_cons, ?string_app_nil_l;
    eexists; (split; [reflexivity|]);
    unfold DecodeRuneInString, RuneSelf, first, in_range;
    rewrite ?byte_val_of by (Z.div_mod_to_equations; lia);
    repeat (progress (settle_tests; cbn [andb orb negb Nat.leb]));
    f_equal; Z.div_mod_to_equations; lia.
Qed.

Lemma DecodeRune_width (c : ascii) (s : string) :
  (1 ≤ (DecodeRuneInString (String c s)).2)%nat.
Proof.
  unfold DecodeRuneInString. repeat case_match; simpl; lia.
Qed.

Lemma DecodeRune_valid (s : string) :
  valid_rune (DecodeRuneInString s).1 = true.
Proof.
  unfold DecodeRuneInString, first, in_range, RuneSelf.
  repeat case_match; simplify_eq; cbn [fst]; try done;
    apply valid_rune_range; unfold MaxRune;
    repeat match goal with c : ascii |- _ =>
      pose proof (byte_val_range c); generalize dependent (byte_val c);
      clear c; intros end;
    lia.
Qed.

(** ** The runes of a string *)

Arguments DecodeRuneInString : simpl never.

Lemma runes_loop_fuel (n m : nat) (s : string) :
  (String.length s ≤ n)%nat → (String.length s ≤ m)%nat →
  runes_loop n s = runes_loop m s.
Proof.
  revert m s. induction n as [|n IH]; intros [|m] [|c s]; simpl;
    try done; try lia.
  intros Hn Hm. destruct (DecodeRuneInString (String c s)) as [r w] eqn:Hd.
  f_equal. pose proof (DecodeRune_width c s) as Hw. rewrite Hd in Hw.
  simpl in Hw.
  apply IH; rewrite string_from_length; simpl; lia.
Qed.

Lemma runes_cons (c : ascii) (s : string) :
  runes (String c s)
  = (DecodeRuneInString (String c s)).1
    :: runes (string_from (DecodeRuneInString (String c s)).2 (String c s)).
Proof.
  unfold runes at 1. cbn [String.length runes_loop].
  pose proof (DecodeRune_width c s) as Hw.
  destruct (DecodeRuneInString (String c s)) as [r w]. simpl in *.
  f_equal. apply runes_loop_fuel; [|done].
  rewrite string_from_length. simpl. lia.
Qed.

Lemma runes_valid (s : string) : Forall (λ r, valid_rune r = true) (runes s).
Proof.
  unfold runes. generalize (String.length s) as n. intros n. revert s.
  induction n as [|n IH]; intros [|c s]; simpl; try constructor.
  destruct (DecodeRuneInString (String c s)) as [r w] eqn:Hd.
  constructor; [|apply IH].
  change r with (r, w).1. rewrite <-Hd. apply DecodeRune_valid.
Qed.

Lemma runes_EncodeRune (r : Z) (rest : string) :
  valid_rune r = true → runes (EncodeRune r +:+ rest) = r :: runes rest.
Proof.
  intros Hr.
  destruct (DecodeRune_EncodeRune r rest Hr) as (n & Hlen & Hd).
  destruct (EncodeRune r) as [|c e] eqn:He; [done|].
  rewrite string_app_cons in *. rewrite runes_cons, Hd. simpl fst. simpl snd.
  f_equal. f_equal. rewrite <-Hlen, <-string_app_cons.
  apply string_from_app.
Qed.

Lemma runes_encode_all (rs : list Z) :
  Forall (λ r, valid_rune r = true) rs → runes (encode_all rs) = rs.
Proof.
  induction 1 as [|r rs Hr _ IH]; [done|].
  unfold encode_all in *. simpl. by rewrite runes_EncodeRune, IH.
Qed.

Lemma encode_all_app (rs1 rs2 : list Z) :
  encode_all (rs1 ++ rs2) = encode_all rs1 +:+ encode_all rs2.
Proof.
  unfold encode_all. induction rs1 as [|r rs1 IH]; [done|].
  simpl. by rewrite IH, string_app_assoc.
Qed.

(** A byte of the encoding of a rune outside ASCII is outside ASCII. *)
Lemma EncodeRune_high (r : Z) :
  ¬ (0 ≤ r < 128) →
  string_forallb (λ c, 128 <=? byte_val c) (EncodeRune r) = true.
Proof.
  intros Hr. unfold EncodeRune, valid_rune, MaxRune, RuneError, bytes.
  assert (r < 0 ∨ 128 ≤ r < 2048 ∨ 2048 ≤ r < 55296 ∨ 55296 ≤ r ≤ 57343
          ∨ 57343 < r < 65536 ∨ 65536 ≤ r ≤ 1114111 ∨ 1114111 < r)
    as Hcase by lia.
  destruct Hcase as [H|[H|[H|[H|[H|[H|H]]]]]];
    settle_tests; cbn [andb orb negb map string_of_list_ascii];
    unfold string_forallb; cbn [list_ascii_of_string forallb];
    rewrite ?byte_val_of by (Z.div_mod_to_equations; lia);
    settle_tests; reflexivity.
Qed.

(** ** [strings.ReplaceAll] *)

Lemma ReplaceAll_app (s1 s2 : string) (c : ascii) (new : string) :
  ReplaceAll (s1 +:+ s2) c new = ReplaceAll s1 c new +:+ ReplaceAll s2 c new.
Proof.
  induction s1 as [|b s1 IH]; [done|]. rewrite string_app_cons. simpl.
  destruct (Ascii.eqb b c); by rewrite IH, ?string_app_assoc.
Qed.

Lemma absent_cons (c b : ascii) (s : string) :
  absent c (String b s) ↔ b ≠ c ∧ absent c s.
Proof.
  unfold absent, string_forallb. simpl. rewrite andb_true_iff.
  destruct (Ascii.eqb_spec b c); simpl; naive_solver.
Qed.

Lemma absent_app (c : ascii) (s1 s2 : string) :
  absent c (s1 +:+ s2) ↔ absent c s1 ∧ absent c s2.
Proof.
  induction s1 as [|b s1 IH].
  - rewrite string_app_nil_l. unfold absent at 2. simpl. naive_solver.
  - rewrite string_app_cons, !absent_cons, IH. naive_solver.
Qed.

Lemma ReplaceAll_absent (s : string) (c : ascii) (new : string) :
  absent c s → ReplaceAll s c new = s.
Proof.
  induction s as [|b s IH]; [done|].
  intros [Hb Hs]%absent_cons. simpl.
  destruct (Ascii.eqb_spec b c); [done|]. by rewrite IH.
Qed.

Lemma absent_ReplaceAll_same (c : ascii) (s new : string) :
  absent c new → absent c (ReplaceAll s c new).
Proof.
  intros Hnew. induction s as [|b s IH]; [done|]. simpl.
  destruct (Ascii.eqb_spec b c).
  - by apply absent_app.
  - by apply absent_cons.
Qed.

Lemma absent_ReplaceAll_other (d c : ascii) (s new : string) :
  absent d s → absent d new → absent d (ReplaceAll s c new).
Proof.
  intros Hs Hnew. induction s as [|b s IH]; [done|].
  apply absent_cons in Hs as [Hb Hs]. simpl.
  destruct (Ascii.eqb b c).
  - apply absent_app. auto.
  - apply absent_cons. auto.
Qed.

Lemma ReplaceAll_EncodeRune (r : Z) (c : ascii) (new : string) :
  byte_val c < 128 →
  ReplaceAll (EncodeRune r) c new
  = if r =? byte_val c then new else EncodeRune r.
Proof.
  intros Hc. destruct (decide (0 ≤ r < 128)) as [Hr|Hr].
  - rewrite EncodeRune_ascii by done. simpl.
    destruct (Ascii.eqb_spec (byte_of r) c) as [<-|Hne].
    + rewrite byte_val_of, Z.eqb_refl by lia. apply string_app_nil_r.
    + destruct (Z.eqb_spec r (byte_val c)) as [->|_]; [|done].
      by rewrite byte_of_val in Hne.
  - pose proof (byte_val_range c).
    destruct (Z.eqb_spec r (byte_val c)) as [->|_]; [lia|].
    apply ReplaceAll_absent. pose proof (EncodeRune_high r Hr) as Hhigh.
    unfold absent, string_forallb in *.
    rewrite forallb_forall in *. intros b Hb. specialize (Hhigh b Hb).
    destruct (Ascii.eqb_spec b c) as [->|]; [lia|done].
Qed.

(** ** [strings.ToLower] *)

Section CaseTable.

Context (unicode_ToLower : Z → Z) `{!LowerTable unicode_ToLower}.

Lemma lower_nonneg (r : Z) :
  valid_rune r = true → (0 <=? unicode_ToLower r) = true.
Proof.
  intros Hr%lower_valid. apply valid_rune_range in Hr. lia.
Qed.

Lemma strings_Map_spec (s : string) :
  strings_Map unicode_ToLower s = encode_all (map unicode_ToLower (runes s)).
Proof.
  unfold strings_Map, encode_all. rewrite map_map. f_equal.
  apply map_ext_Forall. eapply Forall_impl; [apply runes_valid|].
  intros r Hr. simpl. by rewrite lower_nonneg.
Qed.

Lemma runes_ascii (s : string) :
  string_forallb (λ c, byte_val c <? RuneSelf) s = true →
  runes s = byte_vals s.
Proof.
  unfold string_forallb, byte_vals. induction s as [|c s IH]; [done|].
  simpl. intros [Hc Hs]%andb_true_iff. rewrite runes_cons.
  unfold DecodeRuneInString. rewrite Hc. simpl. by rewrite IH.
Qed.

Lemma lower_byte_spec (c : ascii) :
  byte_val c < RuneSelf →
  EncodeRune (unicode_ToLower (byte_val c)) = String (lower_byte c) "".
Proof.
  intros Hc. pose proof (byte_val_range c) as Hrange.
  rewrite lower_ascii by lia. unfold lower_byte, is_upper_byte, RuneSelf in *.
  destruct ((65 <=? byte_val c) && (byte_val c <=? 90)) eqn:Hup.
  - rewrite EncodeRune_ascii by lia. done.
  - rewrite EncodeRune_ascii by lia. by rewrite byte_of_val.
Qed.

Lemma string_map_lower_spec (s : string) :
  string_forallb (λ c, byte_val c <? RuneSelf) s = true →
  string_map lower_byte s = encode_all (map unicode_ToLower (byte_vals s)).
Proof.
  unfold string_forallb, byte_vals, encode_all.
  induction s as [|c s IH]; [done|].
  simpl. intros [Hc Hs]%andb_true_iff.
  rewrite lower_byte_spec by lia. rewrite string_app_cons, string_app_nil_l.
  by rewrite IH.
Qed.

Lemma string_map_lower_id (s : string) :
  string_forallb (λ c, negb (is_upper_byte c)) s = true →
  string_map lower_byte s = s.
Proof.
  unfold string_forallb. induction s as [|c s IH]; [done|].
  simpl. intros [Hc Hs]%andb_true_iff. unfold lower_byte at 1.
  apply negb_true_iff in Hc. rewrite Hc. by rewrite IH.
Qed.

(** [strings.ToLower] lowers the runes of the string one by one. *)
Lemma ToLower_spec (s : string) :
  ToLower unicode_ToLower s
  = encode_all (map unicode_ToLower (runes s)).
Proof.
  unfold ToLower.
  destruct (string_forallb (λ c, byte_val c <? RuneSelf) s) eqn:Hascii;
    [|apply strings_Map_spec].
  rewrite runes_ascii, <-string_map_lower_spec by done.
  rewrite negb_involutive.
  destruct (string_forallb (λ c, negb (is_upper_byte c)) s) eqn:Hup; [|done].
  symmetry. by apply string_map_lower_id.
Qed.

Lemma ToLower_lowered (s : string) :
  lowered unicode_ToLower (ToLower unicode_ToLower s).
Proof.
  exists (map unicode_ToLower (runes s)). split; [|split].
  - apply Forall_map. eapply Forall_impl; [apply runes_valid|].
    intros r Hr. by apply lower_valid.
  - apply Forall_map. eapply Forall_impl; [apply runes_valid|].
    intros r Hr. by apply lower_idem.
  - apply ToLower_spec.
Qed.

Lemma lowered_ToLower (s : string) :
  lowered unicode_ToLower s → ToLower unicode_ToLower s = s.
Proof.
  intros (rs & Hvalid & Hfixed & ->).
  rewrite ToLower_spec, runes_encode_all by done. f_equal.
  induction Hfixed as [|r rs Hr _ IH]; [done|].
  apply Forall_cons in Hvalid as [_ Hvalid]. simpl. by rewrite Hr, IH.
Qed.

Lemma lowered_app (s1 s2 : string) :
  lowered unicode_ToLower s1 → lowered unicode_ToLower s2 →
  lowered unicode_ToLower (s1 +:+ s2).
Proof.
  intros (rs1 & Hv1 & Hf1 & ->) (rs2 & Hv2 & Hf2 & ->).
  exists (rs1 ++ rs2). split; [by apply Forall_app|].
  split; [by apply Forall_app|]. by rewrite encode_all_app.
Qed.

Lemma lowered_ReplaceAll (s : string) (c : ascii) (new : string) :
  byte_val c < 128 → lowered unicode_ToLower new →
  lowered unicode_ToLower s → lowered unicode_ToLower (ReplaceAll s c new).
Proof.
  intros Hc Hnew (rs & Hvalid & Hfixed & ->).
  induction rs as [|r rs IH].
  - by exists [].
  - apply Forall_cons in Hvalid as [Hr Hvalid].
    apply Forall_cons in Hfixed as [Hfr Hfixed].
    change (encode_all (r :: rs)) with (EncodeRune r +:+ encode_all rs).
    rewrite ReplaceAll_app, ReplaceAll_EncodeRune by done.
    apply lowered_app; [|by apply IH].
    destruct (r =? byte_val c); [done|].
    exists [r]. split; [by constructor|]. split; [by constructor|].
    unfold encode_all. simpl. by rewrite string_app_nil_r.
Qed.

Lemma lowered_ascii_lower (s : string) :
  string_forallb (λ c, (byte_val c <? 65) || ((90 <? byte_val c)
                        && (byte_val c <? 128))) s = true →
  lowered unicode_ToLower s.
Proof.
  unfold string_forallb. induction s as [|c s IH].
  - by exists [].
  - simpl. intros [Hc Hs]%andb_true_iff.
    change (String c s) with (String c "" +:+ s).
    apply lowered_app; [|by apply IH].
    pose proof (byte_val_range c).
    exists [byte_val c]. split; [|split].
    + constructor; [|done]. apply valid_rune_range. lia.
    + constructor; [|done]. rewrite lower_ascii by (unfold RuneSelf; lia).
      destruct ((65 <=? byte_val c) && (byte_val c <=? 90)) eqn:?; [lia|done].
    + unfold encode_all. simpl. rewrite EncodeRune_ascii by lia.
      by rewrite byte_of_val.
Qed.

(** The three rewriting steps of [normalizeState] reach a string that they
    leave alone. *)
Lemma normalize_steps_fixed (st : string) :
  let x := ReplaceAll (ReplaceAll (ToLower unicode_ToLower st) " " "-")
             "&" "and" in
  ReplaceAll (ReplaceAll (ToLower unicode_ToLower x) " " "-") "&" "and" = x.
Proof.
  intros x.
  assert (lowered unicode_ToLower x) as Hx.
  { subst x. apply lowered_ReplaceAll; [done| |].
    { by apply lowered_ascii_lower. }
    apply lowered_ReplaceAll; [done| |apply ToLower_lowered].
    by apply lowered_ascii_lower. }
  rewrite (lowered_ToLower _ Hx).
  assert (absent " " x) as Hspace.
  { subst x. apply absent_ReplaceAll_other; [|done].
    by apply absent_ReplaceAll_same. }
  assert (absent "&" x) as Hamp.
  { subst x. by apply absent_ReplaceAll_same. }
  rewrite (ReplaceAll_absent x " " "-" Hspace).
  exact (ReplaceAll_absent x "&" "and" Hamp).
Qed.

End CaseTable.

Global Instance sample_ToLower_table : LowerTable sample_ToLower.
Proof.
  split; unfold sample_ToLower, RuneSelf.
  - intros r Hr. repeat case_match; lia.
  - intros r Hr%valid_rune_range. apply valid_rune_range. unfold MaxRune in *.
    repeat case_match; lia.
  - intros r _. repeat case_match; lia.
Qed.

(** * The claims of the specification *)

(** ** The pipeline driver *)

(** C1. The specification has the driver never hand ["national"] to
    [FetchState].  The loop of [main] has no such guard: whatever the pages
    hold and whatever the year, [FetchState] is entered once for each entry
    of the state list, in order, and ["national"] is the first of them, with
    the URL [buildURL] gives it. *)
Theorem main_dispatches_national (unicode_ToLower : Z → Z)
    (browser : string → result Document) (year : Z) :
  dispatched (main_fetch unicode_ToLower browser year).2 = states
  ∧ head (main_fetch unicode_ToLower browser year).2
    = Some (EvDriverFetching 1 17 "national" year)
  ∧ (main_fetch unicode_ToLower browser year).2 !! 1%nat
    = Some (EvFetching "national" year (buildURL "national" year))
  ∧ "national" ∈ dispatched (main_fetch unicode_ToLower browser year).2.
Proof.
  assert (dispatched (main_fetch unicode_ToLower browser year).2 = states)
    as Hd by apply fetch_loop_dispatched.
  split; [done|]. rewrite Hd. split; [|split].
  - unfold main_fetch, states. by rewrite fetch_loop_cons, log_bind_snd.
  - unfold main_fetch, states. rewrite fetch_loop_cons.
    rewrite log_bind_snd. cbn [log_Printf snd app fst].
    rewrite log_bind_snd. unfold FetchState at 1.
    by rewrite log_bind_snd.
  - unfold states. by left.
Qed.

(** ** The date normalizer *)

(** C5, as amended.  When the text parses under one of the two layouts, the
    result is the year in plain decimal, a hyphen, the month and the day of
    the parse, each as two zero-padded digits, and nothing is logged.  For a
    year of four digits (1000 to 9999) that is a string of the shape
    YYYY-MM-DD whose year part is the year given. *)
Theorem normalizeDate_supported_layout (dateStr : string) (year : Z)
    (l : layout) (t : Time) :
  l ∈ layouts → time_Parse l dateStr = Ok t →
  1 ≤ Month t ≤ 12 ∧ 1 ≤ Day_of_month t ≤ 31
  ∧ normalizeDate dateStr year
    = (fmt_d year +:+ "-" +:+ two_digits (Month t) +:+ "-"
       +:+ two_digits (Day_of_month t), [])
  ∧ (1000 ≤ year ≤ 9999 →
     (normalizeDate dateStr year).1
     = four_digits year +:+ "-" +:+ two_digits (Month t) +:+ "-"
       +:+ two_digits (Day_of_month t)
     ∧ is_YYYY_MM_DD (normalizeDate dateStr year).1 = true).
Proof.
  intros Hl Hp.
  pose proof (time_Parse_range _ _ _ Hl Hp) as [Hm Hd].
  pose proof (first_parse_layouts _ _ _ Hl Hp) as Hfirst.
  assert (normalizeDate dateStr year
    = (fmt_d year +:+ "-" +:+ two_digits (Month t) +:+ "-"
       +:+ two_digits (Day_of_month t), [])) as Heq.
  { unfold normalizeDate. rewrite Hfirst. unfold log_ret.
    rewrite !fmt_02d_two_digits by lia. done. }
  repeat split; try lia; try done.
  - rewrite Heq. cbn [fst]. by rewrite fmt_d_four_digits.
  - rewrite Heq. cbn [fst]. rewrite fmt_d_four_digits by done.
    apply is_YYYY_MM_DD_digits; lia.
Qed.

Lemma normalizeDate_supported_layout_witness :
  layout_2_January ∈ layouts
  ∧ time_Parse layout_2_January "31 August" = Ok (MkTime 8 31)
  ∧ normalizeDate "31 August" 2025 = ("2025-08-31", [])
  ∧ is_YYYY_MM_DD (normalizeDate "31 August" 2025).1 = true.
Proof.
  assert (layout_2_January ∈ layouts) as Hl by (right; left).
  assert (time_Parse layout_2_January "31 August" = Ok (MkTime 8 31)) as Hp
    by (vm_compute; reflexivity).
  split; [exact Hl|]. split; [exact Hp|].
  destruct (normalizeDate_supported_layout "31 August" 2025 _ _ Hl Hp)
    as (_ & _ & Heq & Hiso).
  split; [exact Heq|]. apply Hiso. lia.
Defined.

(** C5 as the specification states it, for every year, fails: the year is
    printed with [%d], so a year of fewer than four digits gives a shorter
    string; ["1 Jan"] in the year 5 gives ["5-01-01"]. *)
Lemma normalizeDate_short_year_counterexample :
  ¬ (∀ (dateStr : string) (year : Z) (l : layout) (t : Time),
       l ∈ layouts → time_Parse l dateStr = Ok t →
       is_YYYY_MM_DD (normalizeDate dateStr year).1 = true).
Proof.
  intros Hall.
  assert (normalizeDate "1 Jan" 5 = ("5-01-01", [])) as Hfive
    by (vm_compute; reflexivity).
  specialize (Hall "1 Jan" 5 layout_2_Jan (MkTime 1 1)).
  rewrite Hfive in Hall. vm_compute in Hall.
  assert (false = true) as Habs; [|discriminate Habs].
  apply Hall; [by left|reflexivity].
Qed.

(** C6.  When the text parses under neither layout, the normalizer still
    returns a string, the year in decimal, a hyphen and the text with every
    space turned into a hyphen, and logs one warning. *)
Theorem normalizeDate_fallback (dateStr : string) (year : Z) :
  (∀ l, l ∈ layouts → ∃ e, time_Parse l dateStr = Err e) →
  normalizeDate dateStr year
  = (fmt_d year +:+ "-" +:+ hyphenate dateStr, [EvParseFailed dateStr]).
Proof.
  intros Hnone%first_parse_None.
  unfold normalizeDate. rewrite Hnone.
  by rewrite ReplaceAll_hyphenate.
Qed.

Lemma normalizeDate_fallback_witness :
  (∀ l, l ∈ layouts → ∃ e, time_Parse l "Jan 1st week" = Err e)
  ∧ normalizeDate "Jan 1st week" 2025
    = ("2025-Jan-1st-week", [EvParseFailed "Jan 1st week"]).
Proof.
  assert (∀ l, l ∈ layouts → ∃ e, time_Parse l "Jan 1st week" = Err e) as H.
  { intros l [->|[->|[]%elem_of_nil]%elem_of_cons]%elem_of_cons;
      eexists; vm_compute; reflexivity. }
  split; [exact H|].
  exact (normalizeDate_fallback "Jan 1st week" 2025 H).
Defined.

(** ** The page extractor *)

(** C9.  Once the page has loaded, [FetchState] never fails.  Its records
    are those of the rows of at least three cells, in order; a shorter row
    gives no record and no log line.  With no row at all (no heading naming
    the year, no element after it, an element that is not the holiday table,
    or a table without rows) the result is empty and only a warning is
    logged. *)
Theorem FetchState_empty_and_short_rows (unicode_ToLower : Z → Z)
    (browser : string → result Document) (state : string) (year : Z)
    (document : Document) :
  browser (buildURL state year) = Ok document →
  let rows := rows_script year document in
  let fetched := FetchState unicode_ToLower browser state year in
  fetched.1 = Ok (omap (record_of_row unicode_ToLower state year) rows)
  ∧ (∀ r, (length r < 3)%nat →
       record_of_row unicode_ToLower state year r = None
       ∧ row_warnings year r = [])
  ∧ (rows = [] →
       fetched = (Ok [], [EvFetching state year (buildURL state year);
                          EvNoRows state year]))
  ∧ (rows ≠ [] →
       fetched.2
       = EvFetching state year (buildURL state year)
         :: flat_map (row_warnings year) rows
         ++ [EvFetched
               (length (omap (record_of_row unicode_ToLower state year) rows))
               state year])
  ∧ match find (λ h, includes (innerText h) (fmt_d year)) document with
    | None => rows = []
    | Some yearHeader =>
        match nextElementSibling yearHeader with
        | None => rows = []
        | Some table =>
            ("publicholidays" ∉ classList table → rows = [])
            ∧ (tbody_tr_tds table = [] → rows = [])
        end
    end.
Proof.
  intros Hb rows fetched. subst fetched.
  rewrite (FetchState_loaded _ _ _ _ _ Hb). cbn zeta. fold rows.
  split; [done|]. split; [apply short_row_discarded|].
  split; [by intros ->|]. split; [by destruct rows|].
  subst rows. unfold rows_script.
  destruct (find _ document) as [h|]; [|done].
  destruct (nextElementSibling h) as [table|]; [|done].
  split.
  - intros Hc. by rewrite bool_decide_eq_false_2.
  - intros ->. by destruct (negb _).
Qed.

Lemma FetchState_empty_and_short_rows_witness :
  sample_browser [["stray"]; new_year_row; []]
    (buildURL "johor" 2025)
  = Ok (sample_page 2025 [["stray"]; new_year_row; []])
  ∧ FetchState sample_ToLower
      (sample_browser [["stray"]; new_year_row; []]) "johor" 2025
    = (Ok [MkHoliday "2025-01-01" "Wednesday" "New Year's Day" ["johor"]],
       [EvFetching "johor" 2025
          "https://publicholidays.com.my/johor/2025-dates/";
        EvFetched 1 "johor" 2025]).
Proof.
  split; [reflexivity|].
  pose proof (FetchState_empty_and_short_rows sample_ToLower
    (sample_browser [["stray"]; new_year_row; []]) "johor" 2025
    (sample_page 2025 [["stray"]; new_year_row; []]) eq_refl)
    as (Hres & _ & _ & Hlog & _).
  rewrite (log_eq (FetchState _ _ _ _)), Hres, Hlog;
    [vm_compute; reflexivity|vm_compute; discriminate].
Defined.

(** ** The consolidator *)

Lemma filter_unique {A} (P : A → Prop) `{∀ x, Decision (P x)} (l : list A)
    (x : A) :
  NoDup l → x ∈ l → P x → (∀ y, y ∈ l → P y → y = x) → filter P l = [x].
Proof.
  induction l as [|a l IH]; intros Hnd Hx HP Huniq.
  { by apply elem_of_nil in Hx. }
  apply NoDup_cons in Hnd as [Ha Hnd].
  assert (∀ l', (∀ y, y ∈ l' → ¬ P y) → filter P l' = []) as Hnone.
  { induction l' as [|b l' IHl']; [done|]. intros Hl'.
    rewrite filter_cons_False; [|apply Hl'; by left].
    apply IHl'. intros y ?. apply Hl'. by right. }
  apply elem_of_cons in Hx as [->|Hx].
  - rewrite filter_cons_True by done. f_equal. apply Hnone.
    intros y Hy HPy. apply Ha. rewrite <-(Huniq y); [done|by right|done].
  - rewrite filter_cons_False.
    + apply IH; try done. intros y Hy. apply Huniq. by right.
    + intros HPa. apply Ha. rewrite (Huniq a); [done|by left|done].
Qed.

Lemma same_date_name_key (a b : Holiday) :
  same_date_name a b → merge_key a = merge_key b.
Proof. unfold merge_key. by intros [-> ->]. Qed.

(** A record of a result stands for the input records of its date and name:
    some exist, and its states are theirs. *)
Lemma result_record_spec (holidays res : list Holiday) (o : Holiday) :
  Consolidate_result holidays res → keys_faithful holidays → o ∈ res →
  (∃ h, h ∈ holidays ∧ same_date_name o h)
  ∧ NoDup (States o)
  ∧ ∀ s, s ∈ States o ↔
         ∃ h', h' ∈ holidays ∧ same_date_name h' o ∧ s ∈ States h'.
Proof.
  intros Hres Hkeys Ho.
  pose proof (Consolidate_result_origin _ _ _ Hres Ho) as Hm.
  apply merged_record_Some in Hm as (h0 & g' & Hg & Hd & _ & Hn & Hs).
  assert (h0 ∈ group (merge_key o) holidays) as Hh0 by (rewrite Hg; by left).
  apply elem_of_group in Hh0 as [Hk0 Hin0].
  split; [by exists h0|]. split; [rewrite Hs; apply NoDup_unique|].
  intros s. rewrite Hs, elem_of_unique, elem_of_flat_map_States.
  split.
  - intros (h' & [Hk' Hin']%elem_of_group & Hs'). exists h'.
    split; [done|]. split; [|done].
    destruct (keys_faithful_spec _ h' h0 Hkeys Hin' Hin0) as [? ?];
      [congruence|]. split; congruence.
  - intros (h' & Hin' & Hsame & Hs'). exists h'. split; [|done].
    apply elem_of_group. split; [|done]. by apply same_date_name_key.
Qed.

Lemma result_pair_present (holidays res : list Holiday) (h : Holiday) :
  Consolidate_result holidays res → keys_faithful holidays → h ∈ holidays →
  ∃ o, o ∈ res ∧ same_date_name o h
       ∧ ∀ o', o' ∈ res → same_date_name o' h → o' = o.
Proof.
  intros Hres Hkeys Hh.
  destruct (Consolidate_result_key _ _ _ Hres Hh)
    as (o & Ho & Hm & Hk & Huniq).
  exists o. split; [done|].
  destruct (result_record_spec _ _ _ Hres Hkeys Ho)
    as ((h1 & Hh1 & Hd1 & Hn1) & _).
  assert (merge_key h1 = merge_key h) as Hk1.
  { rewrite <-Hk. unfold merge_key. by rewrite Hd1, Hn1. }
  destruct (keys_faithful_spec _ _ _ Hkeys Hh1 Hh Hk1) as [? ?].
  split; [split; congruence|].
  intros o' Ho' Hsame. apply Huniq; [done|]. by apply same_date_name_key.
Qed.

(** C2, as amended.  When no two input records of different date and name
    share a merge key (the date, ["|"], the name), every (date, name) of the
    input is carried by exactly one record of the result; the states of that
    record have no duplicates and are exactly the states of the input
    records of that date and name.  No other record is in the result. *)
Theorem Consolidate_one_record_per_date_name (holidays res : list Holiday) :
  Consolidate_result holidays res → keys_faithful holidays →
  (∀ h, h ∈ holidays →
     ∃ o, filter (λ o', same_date_name o' h) res = [o]
          ∧ NoDup (States o)
          ∧ ∀ s, s ∈ States o ↔
                 ∃ h', h' ∈ holidays ∧ same_date_name h' h ∧ s ∈ States h')
  ∧ (∀ o, o ∈ res → ∃ h, h ∈ holidays ∧ same_date_name o h).
Proof.
  intros Hres Hkeys. split.
  - intros h Hh.
    destruct (result_pair_present _ _ _ Hres Hkeys Hh)
      as (o & Ho & Hsame & Huniq).
    destruct (result_record_spec _ _ _ Hres Hkeys Ho) as (_ & Hnd & Hst).
    exists o. split; [|split; [done|]].
    + apply filter_unique; try done.
      eapply NoDup_fmap_1, Consolidate_result_keys_NoDup, Hres.
    + intros s. rewrite Hst. destruct Hsame as [Hd Hn].
      unfold same_date_name. rewrite Hd, Hn. done.
  - intros o Ho. by apply (result_record_spec _ _ _ Hres Hkeys Ho).
Qed.

Lemma sample_holidays_faithful : keys_faithful sample_holidays.
Proof. apply (bool_decide_unpack _). vm_compute. exact I. Defined.

Lemma Consolidate_one_record_per_date_name_witness :
  Consolidate_result sample_holidays (Consolidate sample_holidays)
  ∧ keys_faithful sample_holidays
  ∧ ∃ o, filter (λ o',
           same_date_name o'
             (MkHoliday "2025-01-01" "Wed" "New Year's Day" ["kedah"; "johor"]))
           (Consolidate sample_holidays) = [o]
         ∧ NoDup (States o).
Proof.
  split; [apply Consolidate_admissible|].
  split; [apply sample_holidays_faithful|].
  destruct (Consolidate_one_record_per_date_name sample_holidays
              (Consolidate sample_holidays) (Consolidate_admissible _)
              sample_holidays_faithful) as [Hone _].
  destruct (Hone (MkHoliday "2025-01-01" "Wed" "New Year's Day"
                    ["kedah"; "johor"])) as (o & Hf & Hnd & _).
  { unfold sample_holidays. do 3 right. left. }
  exists o. split; [exact Hf|exact Hnd].
Defined.

(** What [Consolidate] makes of the two clashing records, in either order. *)
Lemma Consolidate_result_clash_ab (res : list Holiday) :
  Consolidate_result [clash_a; clash_b] res →
  res = [MkHoliday "2025-TBC|1" "Monday" "Deepavali" ["johor"; "kedah"]].
Proof.
  intros [Hperm _]. apply Permutation_singleton_r.
  rewrite Hperm. vm_compute. reflexivity.
Qed.

Lemma Consolidate_result_clash_ba (res : list Holiday) :
  Consolidate_result [clash_b; clash_a] res →
  res = [MkHoliday "2025-TBC" "Tuesday" "1|Deepavali" ["kedah"; "johor"]].
Proof.
  intros [Hperm _]. apply Permutation_singleton_r.
  rewrite Hperm. vm_compute. reflexivity.
Qed.

(** C2 as the specification states it, for every input, fails: two records
    of different date and name may share a merge key, and then the date and
    name of the second one are in no record of the result. *)
Lemma Consolidate_key_clash_counterexample :
  ¬ (∀ holidays res : list Holiday,
       Consolidate_result holidays res →
       ∀ h, h ∈ holidays →
         ∃ o, filter (λ o', same_date_name o' h) res = [o]).
Proof.
  intros Hall.
  destruct (Hall [clash_a; clash_b] (Consolidate [clash_a; clash_b])
              (Consolidate_admissible _) clash_b) as [o Ho].
  { right. left. }
  rewrite (Consolidate_result_clash_ab _ (Consolidate_admissible _)) in Ho.
  vm_compute in Ho. discriminate Ho.
Qed.

(** C3, as amended.  When no two input records of different date and name
    share a merge key, consolidating a list and any permutation of it gives
    the same (date, name) pairs, and a pair has the same states in both
    results, as sets. *)
Theorem Consolidate_permutation_invariant
    (holidays holidays' res res' : list Holiday) :
  holidays ≡ₚ holidays' →
  Consolidate_result holidays res → Consolidate_result holidays' res' →
  keys_faithful holidays →
  (∀ d n, (∃ o, o ∈ res ∧ Date o = d ∧ Name o = n)
          ↔ (∃ o', o' ∈ res' ∧ Date o' = d ∧ Name o' = n))
  ∧ (∀ o o', o ∈ res → o' ∈ res' → same_date_name o o' →
       ∀ s, s ∈ States o ↔ s ∈ States o').
Proof.
  intros Hperm Hres Hres' Hkeys.
  pose proof (keys_faithful_Permutation _ _ Hperm Hkeys) as Hkeys'.
  split.
  - intros d n. split.
    + intros (o & Ho & <- & <-).
      destruct (result_record_spec _ _ _ Hres Hkeys Ho)
        as ((h & Hh & Hd & Hn) & _).
      rewrite Hperm in Hh.
      destruct (result_pair_present _ _ _ Hres' Hkeys' Hh)
        as (o' & Ho' & [Hd' Hn'] & _).
      exists o'. split; [done|]. split; congruence.
    + intros (o' & Ho' & <- & <-).
      destruct (result_record_spec _ _ _ Hres' Hkeys' Ho')
        as ((h & Hh & Hd & Hn) & _).
      rewrite <-Hperm in Hh.
      destruct (result_pair_present _ _ _ Hres Hkeys Hh)
        as (o & Ho & [Hd' Hn'] & _).
      exists o. split; [done|]. split; congruence.
  - intros o o' Ho Ho' [Hd Hn] s.
    destruct (result_record_spec _ _ _ Hres Hkeys Ho) as (_ & _ & ->).
    destruct (result_record_spec _ _ _ Hres' Hkeys' Ho') as (_ & _ & ->).
    unfold same_date_name. rewrite Hd, Hn.
    split; intros (h' & Hh' & ? & ?); exists h';
      (split; [by rewrite ?Hperm in *; rewrite <-?Hperm in *|done]).
Qed.

Lemma Consolidate_permutation_invariant_witness :
  sample_holidays ≡ₚ reverse sample_holidays
  ∧ Consolidate_result sample_holidays (Consolidate sample_holidays)
  ∧ Consolidate_result (reverse sample_holidays)
      (Consolidate (reverse sample_holidays))
  ∧ keys_faithful sample_holidays
  ∧ ((∃ o, o ∈ Consolidate sample_holidays
           ∧ Date o = "2025-02-01" ∧ Name o = "Federal Territory Day")
     ↔ (∃ o', o' ∈ Consolidate (reverse sample_holidays)
              ∧ Date o' = "2025-02-01" ∧ Name o' = "Federal Territory Day")).
Proof.
  assert (sample_holidays ≡ₚ reverse sample_holidays) as Hperm
    by (symmetry; apply reverse_Permutation).
  split; [exact Hperm|].
  split; [apply Consolidate_admissible|].
  split; [apply Consolidate_admissible|].
  split; [apply sample_holidays_faithful|].
  destruct (Consolidate_permutation_invariant _ _ _ _ Hperm
              (Consolidate_admissible sample_holidays)
              (Consolidate_admissible (reverse sample_holidays))
              sample_holidays_faithful) as [Hkeys _].
  exact (Hkeys "2025-02-01" "Federal Territory Day").
Defined.

(** C3 as the specification states it, for every input, fails on the same
    clash: the order of the input decides which of the two (date, name)
    pairs the result carries. *)
Lemma Consolidate_permutation_counterexample :
  ¬ (∀ holidays holidays' res res' : list Holiday,
       holidays ≡ₚ holidays' →
       Consolidate_result holidays res → Consolidate_result holidays' res' →
       ∀ d n, (∃ o, o ∈ res ∧ Date o = d ∧ Name o = n)
              ↔ (∃ o', o' ∈ res' ∧ Date o' = d ∧ Name o' = n)).
Proof.
  intros Hall.
  pose proof (Hall [clash_a; clash_b] [clash_b; clash_a]
                (Consolidate [clash_a; clash_b])
                (Consolidate [clash_b; clash_a])
                (Permutation_swap _ _ _)
                (Consolidate_admissible _) (Consolidate_admissible _)
                "2025-TBC|1" "Deepavali") as [Hab _].
  rewrite (Consolidate_result_clash_ab _ (Consolidate_admissible _)),
    (Consolidate_result_clash_ba _ (Consolidate_admissible _)) in Hab.
  destruct Hab as (o' & Ho' & Hd & _).
  - eexists. split; [by left|done].
  - apply list_elem_of_singleton in Ho' as ->. discriminate Hd.
Qed.

(** Whatever result [Consolidate] may return, a record that stands before
    another has a date that is not greater in the lexicographic order of
    byte strings. *)
Lemma Consolidate_result_sorted (holidays res : list Holiday)
    (i j : nat) (a b : Holiday) :
  Consolidate_result holidays res →
  (i < j)%nat → res !! i = Some a → res !! j = Some b →
  lex_le (Date a) (Date b).
Proof.
  intros [_ Hsorted] Hij Hi Hj. apply not_after_lex_le.
  apply Sorted_StronglySorted in Hsorted; [|apply _].
  by eapply StronglySorted_lookup.
Qed.

(** C4.  The list [Consolidate] returns is sorted by date: the values of the
    map, in whatever order the map gives them, come out of the sort by
    [less] with every record before the records of a greater or equal date,
    in the lexicographic order of byte strings. *)
Theorem Consolidate_sorted_by_date (holidays : list Holiday)
    (i j : nat) (a b : Holiday) :
  (i < j)%nat →
  Consolidate holidays !! i = Some a → Consolidate holidays !! j = Some b →
  lex_le (Date a) (Date b).
Proof.
  unfold Consolidate. intros Hij Hi Hj. apply not_after_lex_le.
  pose proof (Sorted_merge_sort not_after
                (map_to_list (merge_all holidays)).*2) as Hsorted.
  apply Sorted_StronglySorted in Hsorted; [|apply _].
  by eapply StronglySorted_lookup.
Qed.

Lemma Consolidate_sorted_by_date_witness :
  Date <$> (map_to_list (merge_all sample_calendar)).*2
  = ["2025-03-31"; "2025-05-01"; "2025-01-01"; "2025-02-01"]
  ∧ Date <$> Consolidate sample_calendar
    = ["2025-01-01"; "2025-02-01"; "2025-03-31"; "2025-05-01"]
  ∧ (0 < 2)%nat
  ∧ lex_le "2025-01-01" "2025-03-31".
Proof.
  split; [vm_compute; reflexivity|]. split; [vm_compute; reflexivity|].
  split; [lia|].
  apply (Consolidate_sorted_by_date sample_calendar 0 2
           (MkHoliday "2025-01-01" "Wednesday" "New Year's Day"
              ["johor"; "kedah"])
           (MkHoliday "2025-03-31" "Monday" "Hari Raya Aidilfitri" ["johor"]));
    [lia|vm_compute; reflexivity|vm_compute; reflexivity].
Defined.

(** C10.  The record filed under a merge key takes its day (and its date
    and name) from the first input record of that key; the days of the later
    ones are dropped. *)
Theorem Consolidate_keeps_first_day (holidays res pre post : list Holiday)
    (h0 : Holiday) :
  Consolidate_result holidays res →
  holidays = pre ++ h0 :: post →
  (∀ x, x ∈ pre → merge_key x ≠ merge_key h0) →
  ∃ o, o ∈ res ∧ merge_key o = merge_key h0
       ∧ (∀ o', o' ∈ res → merge_key o' = merge_key h0 → o' = o)
       ∧ Day o = Day h0 ∧ Date o = Date h0 ∧ Name o = Name h0.
Proof.
  intros Hres Hsplit Hpre.
  assert (h0 ∈ holidays) as Hin.
  { rewrite Hsplit. apply elem_of_app. right. by left. }
  destruct (Consolidate_result_key _ _ _ Hres Hin)
    as (o & Ho & Hm & Hk & Huniq).
  rewrite (group_first _ _ _ _ Hsplit Hpre) in Hm.
  injection Hm as <-. eauto 10.
Qed.

Lemma Consolidate_keeps_first_day_witness :
  Consolidate_result sample_holidays (Consolidate sample_holidays)
  ∧ (∃ o, o ∈ Consolidate sample_holidays
          ∧ Name o = "New Year's Day" ∧ Day o = "Wednesday").
Proof.
  split; [apply Consolidate_admissible|].
  destruct (Consolidate_keeps_first_day sample_holidays
    (Consolidate sample_holidays)
    [MkHoliday "2025-02-01" "Saturday" "Federal Territory Day" ["putrajaya"]]
    [MkHoliday "2025-02-01" "Sat" "Federal Territory Day"
       ["labuan"; "putrajaya"];
     MkHoliday "2025-01-01" "Wed" "New Year's Day" ["kedah"; "johor"]]
    (MkHoliday "2025-01-01" "Wednesday" "New Year's Day" ["johor"])
    (Consolidate_admissible _) eq_refl)
    as (o & Ho & _ & _ & Hday & _ & Hname).
  { intros x ->%list_elem_of_singleton. vm_compute. discriminate. }
  exists o. split; [exact Ho|]. split; [exact Hname|exact Hday].
Defined.

(** The day that survives depends on the order of the input. *)
Lemma Consolidate_day_depends_on_order :
  Day <$> Consolidate
    [MkHoliday "2025-01-29" "Wednesday" "Chinese New Year" ["johor"];
     MkHoliday "2025-01-29" "Wed" "Chinese New Year" ["kedah"]]
  = ["Wednesday"]
  ∧ Day <$> Consolidate
    [MkHoliday "2025-01-29" "Wed" "Chinese New Year" ["kedah"];
     MkHoliday "2025-01-29" "Wednesday" "Chinese New Year" ["johor"]]
  = ["Wed"].
Proof. split; vm_compute; reflexivity. Qed.

(** ** The scenario of the specification *)

(** C8.  The row ("1 Jan", "Wednesday", "New Year's Day") on the pages of
    kuala-lumpur and of putrajaya, for 2025: both fetches succeed and every
    result of consolidating their records is the single record of
    2025-01-01, New Year's Day, with exactly these two states. *)
Theorem new_year_scenario (unicode_ToLower : Z → Z)
    (browser : string → result Document) (doc1 doc2 : Document) :
  browser (buildURL "kuala-lumpur" 2025) = Ok doc1 →
  rows_script 2025 doc1 = [new_year_row] →
  browser (buildURL "putrajaya" 2025) = Ok doc2 →
  rows_script 2025 doc2 = [new_year_row] →
  ∃ hs1 hs2,
    (FetchState unicode_ToLower browser "kuala-lumpur" 2025).1 = Ok hs1
    ∧ (FetchState unicode_ToLower browser "putrajaya" 2025).1 = Ok hs2
    ∧ ∀ res, Consolidate_result (hs1 ++ hs2) res →
        res = [MkHoliday "2025-01-01" "Wednesday" "New Year's Day"
                 ["kuala-lumpur"; "putrajaya"]].
Proof.
  intros Hb1 Hr1 Hb2 Hr2.
  rewrite (FetchState_loaded _ _ _ _ _ Hb1), (FetchState_loaded _ _ _ _ _ Hb2).
  cbn zeta. rewrite Hr1, Hr2. eexists _, _.
  split; [reflexivity|]. split; [reflexivity|].
  intros res [Hperm _]. apply Permutation_singleton_r.
  rewrite Hperm. vm_compute. reflexivity.
Qed.

Lemma new_year_scenario_witness :
  ∃ hs1 hs2,
    (FetchState sample_ToLower (sample_browser [new_year_row])
       "kuala-lumpur" 2025).1 = Ok hs1
    ∧ (FetchState sample_ToLower (sample_browser [new_year_row])
         "putrajaya" 2025).1 = Ok hs2
    ∧ ∀ res, Consolidate_result (hs1 ++ hs2) res →
        res = [MkHoliday "2025-01-01" "Wednesday" "New Year's Day"
                 ["kuala-lumpur"; "putrajaya"]].
Proof.
  apply (new_year_scenario sample_ToLower (sample_browser [new_year_row])
           (sample_page 2025 [new_year_row]) (sample_page 2025 [new_year_row]));
    vm_compute; reflexivity.
Defined.

(** ** The state-name canonicalizer *)

(** C7.  With the case table of Go, canonicalizing a label twice gives what
    canonicalizing it once gives. *)
Theorem normalizeState_idempotent (unicode_ToLower : Z → Z)
    `{!LowerTable unicode_ToLower} (s : string) :
  normalizeState unicode_ToLower (normalizeState unicode_ToLower s)
  = normalizeState unicode_ToLower s.
Proof.
  pose proof (normalize_steps_fixed unicode_ToLower s) as Hfixed.
  cbv zeta in Hfixed. unfold normalizeState at 2 3.
  set (x := ReplaceAll (ReplaceAll (ToLower unicode_ToLower s) " " "-")
              "&" "and") in *.
  destruct (String.eqb x "malacca") eqn:E1; [reflexivity|].
  destruct (String.eqb x "kualalumpur") eqn:E2; [reflexivity|].
  destruct (String.eqb x "putrajayaand-selangor"
            || String.eqb x "putrajaya-selangor") eqn:E3; [reflexivity|].
  unfold normalizeState. by rewrite Hfixed, E1, E2, E3.
Qed.

Lemma normalizeState_idempotent_witness :
  LowerTable sample_ToLower
  ∧ normalizeState sample_ToLower
      (normalizeState sample_ToLower "Putrajaya& SELANGOR")
    = normalizeState sample_ToLower "Putrajaya& SELANGOR".
Proof.
  split; [exact sample_ToLower_table|].
  exact (normalizeState_idempotent sample_ToLower "Putrajaya& SELANGOR").
Defined.

(** * Further properties of the code *)

(** ** [unique] *)

Lemma filter_ext_elem {A} (P Q : A → Prop) `{∀ x, Decision (P x)}
    `{∀ x, Decision (Q x)} (l : list A) :
  (∀ x, x ∈ l → (P x ↔ Q x)) → filter P l = filter Q l.
Proof.
  induction l as [|a l IH]; intros Hext; [done|].
  rewrite !filter_cons.
  destruct (decide (P a)) as [HP|HP], (decide (Q a)) as [HQ|HQ].
  - f_equal. apply IH. intros x ?. apply Hext. by right.
  - exfalso. apply HQ, (Hext a); [by left|done].
  - exfalso. apply HP, (Hext a); [by left|done].
  - apply IH. intros x ?. apply Hext. by right.
Qed.

Lemma filter_all {A} (P : A → Prop) `{∀ x, Decision (P x)} (l : list A) :
  (∀ x, x ∈ l → P x) → filter P l = l.
Proof.
  induction l as [|a l IH]; intros Hall; [done|].
  rewrite filter_cons_True by (apply Hall; by left).
  f_equal. apply IH. intros x ?. apply Hall. by right.
Qed.

(** What the loop appends with a larger set of strings already seen. *)
Lemma firsts_filter (X Y : gset string) (l : list string) :
  Y ⊆ X → firsts X l = filter (λ y, y ∉ X) (firsts Y l).
Proof.
  revert X Y. induction l as [|s l IH]; intros X Y HYX; simpl; [done|].
  destruct (decide (s ∈ Y)) as [HsY|HsY].
  - rewrite decide_True by set_solver. by apply IH.
  - destruct (decide (s ∈ X)) as [HsX|HsX].
    + rewrite filter_cons_False by (intros Hn; by apply Hn).
      apply IH. set_solver.
    + rewrite filter_cons_True by done. f_equal.
      rewrite (IH ({[s]} ∪ X) ({[s]} ∪ Y)) by set_solver.
      apply filter_ext_elem. intros x Hx%elem_of_firsts. set_solver.
Qed.

Lemma sublist_firsts (X : gset string) (l : list string) :
  sublist (firsts X l) l.
Proof.
  revert X. induction l as [|s l IH]; intros X; simpl; [constructor|].
  destruct (decide (s ∈ X)).
  - apply sublist_cons. apply IH.
  - apply sublist_skip. apply IH.
Qed.

(** X1.  [unique] keeps the first occurrence of every string and drops the later
    ones, whatever the map [seen] does inside: the result has no duplicate,
    the members of the input, in the order of the input. *)
Theorem unique_first_occurrences (x : string) (l : list string) :
  unique [] = []
  ∧ unique (x :: l) = x :: filter (λ y, y ≠ x) (unique l)
  ∧ NoDup (unique l)
  ∧ (∀ y, y ∈ unique l ↔ y ∈ l)
  ∧ sublist (unique l) l.
Proof.
  split; [done|]. split; [|split; [apply NoDup_unique|split]].
  - rewrite !unique_firsts. simpl. rewrite decide_False by set_solver.
    f_equal. rewrite (firsts_filter ({[x]} ∪ ∅) ∅) by set_solver.
    apply filter_ext_elem. intros y _. set_solver.
  - intros y. apply elem_of_unique.
  - rewrite unique_firsts. apply sublist_firsts.
Qed.

(** X2.  [unique] of a concatenation: the strings of the second list that the
    first one has are dropped. *)
Theorem unique_app (l1 l2 : list string) :
  unique (l1 ++ l2) = unique l1 ++ filter (λ y, y ∉ l1) (unique l2).
Proof.
  rewrite !unique_firsts, firsts_app. f_equal.
  rewrite (firsts_filter (∅ ∪ list_to_set l1) ∅) by set_solver.
  apply filter_ext_elem. intros y _.
  rewrite not_elem_of_union, elem_of_list_to_set. set_solver.
Qed.

(** X3.  A list without duplicates is returned as it is; so deduplicating twice
    is deduplicating once. *)
Theorem unique_NoDup_id (l : list string) :
  (NoDup l → unique l = l) ∧ unique (unique l) = unique l.
Proof.
  assert (∀ k, NoDup k → unique k = k) as Hid.
  { intros k Hnd. rewrite unique_firsts. apply firsts_NoDup_id; [done|].
    set_solver. }
  split; [apply Hid|]. apply Hid, NoDup_unique.
Qed.

Lemma unique_NoDup_id_witness :
  NoDup ["johor"; "kedah"] ∧ unique ["johor"; "kedah"] = ["johor"; "kedah"].
Proof.
  assert (NoDup ["johor"; "kedah"]) as Hnd.
  { apply (bool_decide_unpack _). vm_compute. exact I. }
  split; [exact Hnd|].
  exact (proj1 (unique_NoDup_id ["johor"; "kedah"]) Hnd).
Defined.

(** ** [Consolidate] *)

(** X4.  The result is empty exactly for an empty input. *)
Theorem Consolidate_empty_iff (holidays res : list Holiday) :
  Consolidate_result holidays res → (res = [] ↔ holidays = []).
Proof.
  intros Hres. split.
  - intros ->. destruct holidays as [|h holidays]; [done|].
    destruct (Consolidate_result_key _ _ h Hres) as (o & Ho & _);
      [by left|]. by apply elem_of_nil in Ho.
  - intros ->. destruct Hres as [Hperm _].
    by apply Permutation_nil_r in Hperm.
Qed.

Lemma Consolidate_empty_iff_witness :
  Consolidate_result [] (Consolidate []) ∧ Consolidate [] = [].
Proof.
  split; [apply Consolidate_admissible|].
  apply (Consolidate_empty_iff [] (Consolidate []) (Consolidate_admissible _)).
  reflexivity.
Defined.

(** X5.  For every input, clashing keys or not: the states of a record of the
    result are [unique] of the states of the input records of its merge key,
    taken in input order; none is lost, none is invented, none is repeated. *)
Theorem Consolidate_states_of_key (holidays res : list Holiday) (o : Holiday) :
  Consolidate_result holidays res → o ∈ res →
  States o
  = unique (flat_map States
              (filter (λ h, merge_key h = merge_key o) holidays))
  ∧ NoDup (States o)
  ∧ ∀ s, s ∈ States o ↔
         ∃ h, h ∈ holidays ∧ merge_key h = merge_key o ∧ s ∈ States h.
Proof.
  intros Hres Ho.
  pose proof (Consolidate_result_origin _ _ _ Hres Ho) as Hm.
  apply merged_record_Some in Hm as (h0 & g' & Hg & _ & _ & _ & Hs).
  fold (group (merge_key o) holidays).
  split; [done|]. split; [rewrite Hs; apply NoDup_unique|].
  intros s. rewrite Hs, elem_of_unique, elem_of_flat_map_States.
  split; intros (h & Hh & Hsh); exists h.
  - apply elem_of_group in Hh as [? ?]. done.
  - destruct Hsh as [? ?]. split; [by apply elem_of_group|done].
Qed.

Lemma Consolidate_states_of_key_witness :
  Consolidate_result [clash_a; clash_b] (Consolidate [clash_a; clash_b])
  ∧ MkHoliday "2025-TBC|1" "Monday" "Deepavali" ["johor"; "kedah"]
    ∈ Consolidate [clash_a; clash_b]
  ∧ NoDup ["johor"; "kedah"].
Proof.
  assert (MkHoliday "2025-TBC|1" "Monday" "Deepavali" ["johor"; "kedah"]
          ∈ Consolidate [clash_a; clash_b]) as Hin.
  { vm_compute. left. }
  split; [apply Consolidate_admissible|]. split; [exact Hin|].
  exact (proj1 (proj2 (Consolidate_states_of_key _ _ _
                         (Consolidate_admissible _) Hin))).
Defined.

Lemma length_remove_dups `{EqDecision A} (l : list A) :
  (length (remove_dups l) ≤ length l)%nat.
Proof.
  induction l as [|a l IH]; simpl; [done|].
  destruct (decide_rel elem_of a l); simpl; lia.
Qed.

Lemma Consolidate_result_keys (holidays res : list Holiday) :
  Consolidate_result holidays res →
  merge_key <$> res ≡ₚ remove_dups (merge_key <$> holidays).
Proof.
  intros Hres. apply NoDup_Permutation.
  - by eapply Consolidate_result_keys_NoDup.
  - apply NoDup_remove_dups.
  - intros k. rewrite elem_of_remove_dups, !list_elem_of_fmap. split.
    + intros (o & -> & Ho).
      pose proof (Consolidate_result_origin _ _ _ Hres Ho) as Hm.
      apply merged_record_Some in Hm as (h0 & g' & Hg & _).
      exists h0. assert (h0 ∈ group (merge_key o) holidays) as Hh0
        by (rewrite Hg; by left).
      apply elem_of_group in Hh0 as [? ?]. done.
    + intros (h & -> & Hh).
      destruct (Consolidate_result_key _ _ _ Hres Hh) as (o & Ho & _ & Hk & _).
      by exists o.
Qed.

(** X6.  The result has one record per distinct merge key of the input, so never
    more records than the input. *)
Theorem Consolidate_length (holidays res : list Holiday) :
  Consolidate_result holidays res →
  length res = length (remove_dups (merge_key <$> holidays))
  ∧ (length res ≤ length holidays)%nat.
Proof.
  intros Hkeys%Consolidate_result_keys.
  apply Permutation_length in Hkeys. rewrite length_fmap in Hkeys.
  split; [done|]. rewrite Hkeys.
  etrans; [apply length_remove_dups|]. by rewrite length_fmap.
Qed.

Lemma Consolidate_length_witness :
  Consolidate_result sample_holidays (Consolidate sample_holidays)
  ∧ length (Consolidate sample_holidays) = 2%nat.
Proof.
  split; [apply Consolidate_admissible|].
  rewrite (proj1 (Consolidate_length _ _
                    (Consolidate_admissible sample_holidays))).
  vm_compute. reflexivity.
Defined.

(** The records of a result, filed again. *)
Lemma group_of_result (holidays res : list Holiday) (k : string) :
  Consolidate_result holidays res →
  group k res = match merge_all holidays !! k with
                | Some o => [o]
                | None => []
                end.
Proof.
  intros Hres. destruct (merge_all holidays !! k) as [o|] eqn:Hm.
  - pose proof (merge_all_key _ _ _ Hm) as Hk. unfold group.
    apply filter_unique.
    + eapply NoDup_fmap_1, Consolidate_result_keys_NoDup, Hres.
    + apply (Consolidate_result_elem _ _ _ Hres). by rewrite Hk.
    + done.
    + intros o' Ho'%(Consolidate_result_elem _ _ _ Hres) Hk'.
      rewrite Hk' in Ho'. congruence.
  - unfold group. destruct (filter _ res) as [|o g] eqn:Hf; [done|].
    assert (o ∈ filter (λ h, merge_key h = k) res) as Ho
      by (rewrite Hf; by left).
    apply list_elem_of_filter in Ho as [Hk Ho].
    apply (Consolidate_result_elem _ _ _ Hres) in Ho.
    rewrite Hk in Ho. congruence.
Qed.

Lemma group_app (k : string) (l1 l2 : list Holiday) :
  group k (l1 ++ l2) = group k l1 ++ group k l2.
Proof. unfold group. apply filter_app. Qed.

Lemma merge_all_incremental (holidays res more : list Holiday) :
  Consolidate_result holidays res →
  merge_all (res ++ more) = merge_all (holidays ++ more).
Proof.
  intros Hres. apply map_eq. intros k.
  rewrite !merge_all_lookup, !group_app, (group_of_result _ _ _ Hres).
  rewrite merge_all_lookup.
  destruct (group k holidays) as [|h0 g]; simpl; [done|].
  do 2 f_equal. rewrite unique_unique_app.
  by rewrite <-!app_assoc, flat_map_app.
Qed.

(** X7.  Consolidating can be done in batches: a consolidated result followed by
    further records consolidates to what all the records together
    consolidate to.  In particular, consolidating a result again gives back
    its records. *)
Theorem Consolidate_incremental (holidays res more res' : list Holiday) :
  Consolidate_result holidays res →
  (Consolidate_result (res ++ more) res'
   ↔ Consolidate_result (holidays ++ more) res')
  ∧ (Consolidate_result res res' → res' ≡ₚ res).
Proof.
  intros Hres. split.
  - unfold Consolidate_result.
    by rewrite (merge_all_incremental _ _ more Hres).
  - intros [Hperm' _]. rewrite Hperm'.
    pose proof (merge_all_incremental _ _ [] Hres) as Heq.
    rewrite !app_nil_r in Heq. rewrite Heq. symmetry. apply Hres.
Qed.

Lemma Consolidate_incremental_witness :
  Consolidate_result sample_holidays (Consolidate sample_holidays)
  ∧ Consolidate (Consolidate sample_holidays) ≡ₚ Consolidate sample_holidays.
Proof.
  split; [apply Consolidate_admissible|].
  apply (Consolidate_incremental sample_holidays
           (Consolidate sample_holidays) []
           (Consolidate (Consolidate sample_holidays))
           (Consolidate_admissible _)).
  apply Consolidate_admissible.
Defined.

Lemma lex_le_antisym (s1 s2 : string) : lex_le s1 s2 → lex_le s2 s1 → s1 = s2.
Proof.
  induction 1 as [s|c1 c2 s1 s2 Hlt|c s1 s2 _ IH]; intros H21.
  - by inversion H21.
  - inversion H21; subst; lia.
  - inversion H21; subst; [lia|]. f_equal. auto.
Qed.

(** X8.  Go leaves the order of the result open only among records of the same
    date: two results of one input hold the same records, and are the same
    list when no two records have the same date. *)
Theorem Consolidate_order_open_for_equal_dates
    (holidays res1 res2 : list Holiday) :
  Consolidate_result holidays res1 → Consolidate_result holidays res2 →
  res1 ≡ₚ res2 ∧ (NoDup (Date <$> res1) → res1 = res2).
Proof.
  intros [Hp1 Hs1] [Hp2 Hs2].
  assert (res1 ≡ₚ res2) as Hperm by (by rewrite Hp1, Hp2).
  split; [done|]. intros Hdates.
  apply (StronglySorted_unique_strong not_after); try done.
  - intros a b Ha Hb Hab%not_after_lex_le Hba%not_after_lex_le.
    rewrite <-Hperm in Hb.
    pose proof (lex_le_antisym _ _ Hab Hba) as Hd.
    apply list_elem_of_lookup in Ha as [i Hi], Hb as [j Hj].
    assert (i = j) as ->.
    { eapply NoDup_lookup; [exact Hdates|..];
        rewrite list_lookup_fmap; [by rewrite Hi|by rewrite Hj, Hd]. }
    congruence.
  - by apply Sorted_StronglySorted; [apply _|].
  - by apply Sorted_StronglySorted; [apply _|].
Qed.

Lemma Consolidate_order_open_for_equal_dates_witness :
  Consolidate_result sample_holidays (Consolidate sample_holidays)
  ∧ NoDup (Date <$> Consolidate sample_holidays)
  ∧ ∀ res, Consolidate_result sample_holidays res →
           Consolidate sample_holidays = res.
Proof.
  assert (NoDup (Date <$> Consolidate sample_holidays)) as Hnd.
  { apply (bool_decide_unpack _). vm_compute. exact I. }
  split; [apply Consolidate_admissible|]. split; [exact Hnd|].
  intros res Hres.
  exact (proj2 (Consolidate_order_open_for_equal_dates _ _ _
                  (Consolidate_admissible _) Hres) Hnd).
Defined.

(** The order is indeed open: two records of one date may come either way. *)
Lemma Consolidate_result_two_orders :
  let a := MkHoliday "2025-01-29" "Wednesday" "Chinese New Year" ["johor"] in
  let b := MkHoliday "2025-01-29" "Wednesday" "Thaipusam" ["kedah"] in
  Consolidate_result [a; b] [a; b] ∧ Consolidate_result [a; b] [b; a].
Proof.
  intros a b.
  assert ((map_to_list (merge_all [a; b])).*2 ≡ₚ [a; b]) as Hvalues.
  { vm_compute. first [reflexivity|apply Permutation_swap]. }
  split; (split; [rewrite Hvalues; first [done|apply Permutation_swap]|]);
    repeat constructor.
Qed.

(** ** [normalizeDate] *)

Lemma parsed_as_spec (dateStr : string) (m d : Z) :
  parsed_as dateStr m d = true → first_parse layouts dateStr = Some (MkTime m d).
Proof.
  unfold parsed_as. destruct (first_parse layouts dateStr) as [[m' d']|];
    [|done].
  simpl. intros [Hm Hd]%andb_true_iff. f_equal. f_equal; lia.
Qed.

Lemma day_month_texts_parse (m d : Z) (day_text month_text : string) :
  1 ≤ m ≤ 12 → 1 ≤ d ≤ daysIn m 0 →
  day_text ∈ [fmt_d d; two_digits d] →
  month_text ∈ [short_month m; long_month m] →
  first_parse layouts (day_text +:+ " " +:+ month_text) = Some (MkTime m d).
Proof.
  intros Hm Hd Hday Hmonth. apply parsed_as_spec.
  pose proof (daysIn_le_31 m 0) as Hmax.
  assert (forallb (λ m, forallb (λ d,
            implb (d <=? daysIn m 0)
              (forallb (λ dt, forallb (λ mt,
                 parsed_as (dt +:+ " " +:+ mt) m d)
                 [short_month m; long_month m])
                 [fmt_d d; two_digits d]))
            (Z_range 1 31)) (Z_range 1 12) = true) as Hall
    by (vm_compute; reflexivity).
  pose proof (Z_range_forallb _ 1 12 Hall m ltac:(lia)) as Hrow.
  pose proof (Z_range_forallb _ 1 31 Hrow d ltac:(lia)) as Hcell.
  cbv beta in Hcell. rewrite (proj2 (Z.leb_le d (daysIn m 0))) in Hcell by lia.
  cbn [implb] in Hcell. rewrite forallb_forall in Hcell.
  specialize (Hcell day_text (proj1 (list_elem_of_In _ _) Hday)).
  rewrite forallb_forall in Hcell.
  exact (Hcell month_text (proj1 (list_elem_of_In _ _) Hmonth)).
Qed.

(** X9.  Reading back a date: a day of the month, plain or zero-padded, a space
    and the abbreviated or full English name of the month give the date of
    that day and month in the year asked for.  The day is checked against
    the length of the month in the year 0, a leap year, not in the year asked
    for: 29 February is read in every year. *)
Theorem normalizeDate_reads_day_month (year m d : Z)
    (day_text month_text : string) :
  1 ≤ m ≤ 12 → 1 ≤ d ≤ daysIn m 0 →
  day_text ∈ [fmt_d d; two_digits d] →
  month_text ∈ [short_month m; long_month m] →
  normalizeDate (day_text +:+ " " +:+ month_text) year
  = (fmt_d year +:+ "-" +:+ two_digits m +:+ "-" +:+ two_digits d, []).
Proof.
  intros Hm Hd Hday Hmonth. unfold normalizeDate.
  rewrite (day_month_texts_parse m d) by done.
  pose proof (daysIn_le_31 m 0). cbn [Month Day_of_month]. unfold log_ret.
  by rewrite !fmt_02d_two_digits by lia.
Qed.

Lemma normalizeDate_reads_day_month_witness :
  1 ≤ 2 ≤ 12 ∧ 1 ≤ 29 ≤ daysIn 2 0
  ∧ "29" ∈ [fmt_d 29; two_digits 29]
  ∧ "February" ∈ [short_month 2; long_month 2]
  ∧ normalizeDate "29 February" 2025 = ("2025-02-29", []).
Proof.
  assert (1 ≤ 29 ≤ daysIn 2 0) as Hd by (vm_compute; split; discriminate).
  assert ("29" ∈ [fmt_d 29; two_digits 29]) as Hday by (vm_compute; left).
  assert ("February" ∈ [short_month 2; long_month 2]) as Hmonth
    by (vm_compute; right; left).
  split; [lia|]. split; [exact Hd|]. split; [exact Hday|].
  split; [exact Hmonth|].
  exact (normalizeDate_reads_day_month 2025 2 29 "29" "February"
           ltac:(lia) Hd Hday Hmonth).
Defined.

Lemma day_out_of_range_unparsed (m d : Z) :
  1 ≤ m ≤ 12 → 0 ≤ d ≤ 99 → ¬ (1 ≤ d ≤ daysIn m 0) →
  first_parse layouts (fmt_d d +:+ " " +:+ short_month m) = None
  ∧ first_parse layouts (fmt_d d +:+ " " +:+ long_month m) = None.
Proof.
  intros Hm Hd Hout.
  assert (forallb (λ m, forallb (λ d,
            implb (negb ((1 <=? d) && (d <=? daysIn m 0)))
              (unparsed (fmt_d d +:+ " " +:+ short_month m)
               && unparsed (fmt_d d +:+ " " +:+ long_month m)))
            (Z_range 0 100)) (Z_range 1 12) = true) as Hall
    by (vm_compute; reflexivity).
  pose proof (Z_range_forallb _ 1 12 Hall m ltac:(lia)) as Hrow.
  pose proof (Z_range_forallb _ 0 100 Hrow d ltac:(lia)) as Hcell.
  cbv beta in Hcell.
  replace ((1 <=? d) && (d <=? daysIn m 0)) with false in Hcell by lia.
  cbn [negb implb] in Hcell. apply andb_true_iff in Hcell as [H1 H2].
  unfold unparsed in *.
  split; [by destruct (first_parse layouts (_ +:+ " " +:+ short_month m))
         |by destruct (first_parse layouts (_ +:+ " " +:+ long_month m))].
Qed.

(** X10.  A day the month does not have (in a leap year) is not an error: the cell
    falls back to the marker, the text with a hyphen for the space, and one
    warning is logged. *)
Theorem normalizeDate_day_out_of_range (year m d : Z) (month_text : string) :
  1 ≤ m ≤ 12 → 0 ≤ d ≤ 99 → ¬ (1 ≤ d ≤ daysIn m 0) →
  month_text ∈ [short_month m; long_month m] →
  normalizeDate (fmt_d d +:+ " " +:+ month_text) year
  = (fmt_d year +:+ "-" +:+ hyphenate (fmt_d d +:+ " " +:+ month_text),
     [EvParseFailed (fmt_d d +:+ " " +:+ month_text)]).
Proof.
  intros Hm Hd Hout Hmonth.
  destruct (day_out_of_range_unparsed m d Hm Hd Hout) as [Hs Hl].
  unfold normalizeDate.
  assert (first_parse layouts (fmt_d d +:+ " " +:+ month_text) = None) as ->.
  { apply elem_of_cons in Hmonth as [->|Hmonth]; [done|].
    apply elem_of_cons in Hmonth as [->|Hmonth]; [done|].
    by apply elem_of_nil in Hmonth. }
  by rewrite ReplaceAll_hyphenate.
Qed.

Lemma normalizeDate_day_out_of_range_witness :
  1 ≤ 4 ≤ 12 ∧ 0 ≤ 31 ≤ 99 ∧ ¬ (1 ≤ 31 ≤ daysIn 4 0)
  ∧ "Apr" ∈ [short_month 4; long_month 4]
  ∧ normalizeDate "31 Apr" 2025 = ("2025-31-Apr", [EvParseFailed "31 Apr"]).
Proof.
  assert (¬ (1 ≤ 31 ≤ daysIn 4 0)) as Hout.
  { vm_compute. intros [_ H]. by apply H. }
  assert ("Apr" ∈ [short_month 4; long_month 4]) as Hmonth
    by (vm_compute; left).
  split; [lia|]. split; [lia|]. split; [exact Hout|].
  split; [exact Hmonth|].
  exact (normalizeDate_day_out_of_range 2025 4 31 "Apr"
           ltac:(lia) ltac:(lia) Hout Hmonth).
Defined.

Lemma string_forallb_app (p : ascii → bool) (s1 s2 : string) :
  string_forallb p (s1 +:+ s2) = string_forallb p s1 && string_forallb p s2.
Proof.
  unfold string_forallb. induction s1 as [|c s1 IH]; [done|].
  rewrite string_app_cons. simpl. by rewrite IH, andb_assoc.
Qed.

Lemma string_forallb_impl (p q : ascii → bool) (s : string) :
  (∀ c, p c = true → q c = true) →
  string_forallb p s = true → string_forallb q s = true.
Proof.
  unfold string_forallb. intros Hpq. rewrite !forallb_forall. auto.
Qed.

Lemma string_of_uint_digits (d : Decimal.uint) :
  string_forallb is_digit_char (NilEmpty.string_of_uint d) = true.
Proof.
  unfold string_forallb.
  induction d as [|d IH|d IH|d IH|d IH|d IH|d IH|d IH|d IH|d IH|d IH];
    [done|..];
    cbn [NilEmpty.string_of_uint list_ascii_of_string forallb];
    by rewrite IH.
Qed.

Lemma fmt_d_digits_and_hyphens (n : Z) : digits_and_hyphens (fmt_d n).
Proof.
  unfold digits_and_hyphens, fmt_d, NilZero.string_of_int.
  assert (∀ d, string_forallb (λ c, is_digit_char c || Ascii.eqb c "-")
                 (NilZero.string_of_uint d) = true) as Huint.
  { intros d. apply (string_forallb_impl is_digit_char).
    - intros c ->. done.
    - destruct d; try apply string_of_uint_digits. done. }
  destruct (Z.to_int n) as [d|d]; [apply Huint|].
  change (String "-" ?s) with ("-" +:+ s).
  by rewrite string_forallb_app, Huint.
Qed.

Lemma two_digits_digits_and_hyphens (n : Z) :
  0 ≤ n < 100 → digits_and_hyphens (two_digits n).
Proof.
  intros Hn. rewrite <-fmt_02d_two_digits by done. unfold fmt_02d.
  pose proof (fmt_d_digits_and_hyphens n) as Hd.
  destruct (_ <? _)%nat; [|done].
  unfold digits_and_hyphens in *. by rewrite string_forallb_app, Hd.
Qed.

Lemma digits_and_hyphens_app (s1 s2 : string) :
  digits_and_hyphens s1 → digits_and_hyphens s2 →
  digits_and_hyphens (s1 +:+ s2).
Proof.
  unfold digits_and_hyphens. intros H1 H2.
  by rewrite string_forallb_app, H1, H2.
Qed.

Lemma digits_and_hyphens_absent (c : ascii) (s : string) :
  is_digit_char c || Ascii.eqb c "-" = false →
  digits_and_hyphens s → absent c s.
Proof.
  intros Hc. apply string_forallb_impl. intros b Hb.
  destruct (Ascii.eqb_spec b c) as [->|]; [congruence|done].
Qed.

Lemma digits_and_hyphens_bar_free (s : string) :
  digits_and_hyphens s → bar_free s.
Proof.
  unfold digits_and_hyphens, bar_free, string_forallb.
  rewrite forallb_forall. intros Hs Hbar%list_elem_of_In.
  by specialize (Hs _ Hbar).
Qed.

Lemma absent_hyphenate (s : string) : absent " " (hyphenate s).
Proof.
  induction s as [|c s IH]; [done|]. simpl. apply absent_cons.
  split; [|done]. by destruct (Ascii.eqb_spec c " ").
Qed.

Lemma normalizeDate_parsed_digits (dateStr : string) (year : Z) (t : Time) :
  first_parse layouts dateStr = Some t →
  digits_and_hyphens (normalizeDate dateStr year).1.
Proof.
  intros Hfirst. unfold normalizeDate. rewrite Hfirst. cbn [log_ret fst].
  assert (∃ l, l ∈ layouts ∧ time_Parse l dateStr = Ok t) as (l & Hl & Hp).
  { revert Hfirst. unfold layouts. simpl.
    destruct (time_Parse layout_2_Jan dateStr) eqn:E1.
    - intros [= ->]. exists layout_2_Jan. split; [by left|done].
    - destruct (time_Parse layout_2_January dateStr) eqn:E2; [|done].
      intros [= ->]. exists layout_2_January. split; [right; by left|done]. }
  destruct (time_Parse_range _ _ _ Hl Hp) as [Hm Hd].
  rewrite !fmt_02d_two_digits by lia.
  repeat apply digits_and_hyphens_app;
    first [apply fmt_d_digits_and_hyphens
          |apply two_digits_digits_and_hyphens; lia
          |done].
Qed.

(** X11.  What a normalized date is made of.  It never holds a space, parsed or
    not; and when the text parses it holds decimal digits and hyphens only,
    so not the ["|"] that separates date and name in a merge key. *)
Theorem normalizeDate_characters (dateStr : string) (year : Z) :
  absent " " (normalizeDate dateStr year).1
  ∧ (∀ l t, l ∈ layouts → time_Parse l dateStr = Ok t →
       digits_and_hyphens (normalizeDate dateStr year).1
       ∧ bar_free (normalizeDate dateStr year).1).
Proof.
  split.
  - destruct (first_parse layouts dateStr) as [t|] eqn:Hfirst.
    + apply (digits_and_hyphens_absent " "); [done|].
      by eapply normalizeDate_parsed_digits.
    + unfold normalizeDate. rewrite Hfirst. cbn.
      rewrite ReplaceAll_hyphenate. apply absent_app. split.
      * apply (digits_and_hyphens_absent " "); [done|].
        apply fmt_d_digits_and_hyphens.
      * apply absent_app. split; [done|apply absent_hyphenate].
  - intros l t Hl Hp.
    pose proof (first_parse_layouts _ _ _ Hl Hp) as Hfirst.
    pose proof (normalizeDate_parsed_digits _ year _ Hfirst) as Hdigits.
    split; [done|]. by apply digits_and_hyphens_bar_free.
Qed.

Lemma normalizeDate_characters_witness :
  layout_2_Jan ∈ layouts
  ∧ time_Parse layout_2_Jan "1 Jan" = Ok (MkTime 1 1)
  ∧ bar_free (normalizeDate "1 Jan" 2025).1.
Proof.
  assert (layout_2_Jan ∈ layouts) as Hl by left.
  assert (time_Parse layout_2_Jan "1 Jan" = Ok (MkTime 1 1)) as Hp
    by (vm_compute; reflexivity).
  split; [exact Hl|]. split; [exact Hp|].
  exact (proj2 (proj2 (normalizeDate_characters "1 Jan" 2025) _ _ Hl Hp)).
Defined.

(** *** The case of letters in a date *)

Lemma byte_of_range_forallb (p : ascii → bool) :
  forallb (λ z, p (byte_of z)) (Z_range 0 256) = true → ∀ c, p c = true.
Proof.
  intros Hall c. rewrite <-(byte_of_val c).
  apply (Z_range_forallb (λ z, p (byte_of z)) 0 256 Hall).
  pose proof (byte_val_range c). lia.
Qed.

Lemma lower_byte_digit (c : ascii) :
  is_digit_char (lower_byte c) = is_digit_char c
  ∧ (is_digit_char c = true → lower_byte c = c)
  ∧ Ascii.eqb (lower_byte c) " " = Ascii.eqb c " ".
Proof.
  revert c.
  assert (∀ c, Bool.eqb (is_digit_char (lower_byte c)) (is_digit_char c)
               && implb (is_digit_char c) (Ascii.eqb (lower_byte c) c)
               && Bool.eqb (Ascii.eqb (lower_byte c) " ") (Ascii.eqb c " ")
               = true) as Hall.
  { apply byte_of_range_forallb. vm_compute. reflexivity. }
  intros c. specialize (Hall c).
  apply andb_true_iff in Hall as [[H1 H2]%andb_true_iff H3].
  apply Bool.eqb_prop in H1, H3. split; [done|]. split; [|done].
  intros Hd. rewrite Hd in H2. by apply Ascii.eqb_eq in H2.
Qed.

Lemma match_byte_lower (c a : ascii) :
  is_letter_byte a = true → match_byte (lower_byte c) a = match_byte c a.
Proof.
  intros Ha.
  pose (p := λ c : ascii,
    forallb (λ z, implb (is_letter_byte (byte_of z))
                    (Bool.eqb (match_byte (lower_byte c) (byte_of z))
                              (match_byte c (byte_of z))))
      (Z_range 0 256)).
  assert (p c = true) as Hc.
  { apply byte_of_range_forallb. vm_compute. reflexivity. }
  pose proof (Z_range_forallb _ 0 256 Hc (byte_val a)) as Hca.
  cbv beta in Hca. rewrite byte_of_val, Ha in Hca.
  apply Bool.eqb_prop, Hca. pose proof (byte_val_range a). lia.
Qed.

Lemma string_map_length (f : ascii → ascii) (s : string) :
  String.length (string_map f s) = String.length s.
Proof. induction s as [|c s IH]; simpl; [done|]. by rewrite IH. Qed.

Lemma string_from_map (f : ascii → ascii) (n : nat) (s : string) :
  string_from n (string_map f s) = string_map f (string_from n s).
Proof. revert s. induction n as [|n IH]; intros [|c s]; simpl; auto. Qed.

Lemma string_upto_map (f : ascii → ascii) (n : nat) (s : string) :
  string_upto n (string_map f s) = string_map f (string_upto n s).
Proof.
  revert s. induction n as [|n IH]; intros [|c s]; simpl; try done.
  by rewrite IH.
Qed.

Lemma match_fold_lower (s name : string) :
  string_forallb is_letter_byte name = true →
  match_fold (string_map lower_byte s) name = match_fold s name.
Proof.
  unfold string_forallb. revert name.
  induction s as [|c s IH]; intros [|a name]; try done.
  cbn [list_ascii_of_string forallb string_map].
  intros [Ha Hname]%andb_true_iff.
  by rewrite !match_fold_cons, match_byte_lower, IH.
Qed.

Lemma lookup_from_lower (tab : list string) (i : Z) (val : string) :
  Forall (λ name, string_forallb is_letter_byte name = true) tab →
  lookup_from i tab (string_map lower_byte val)
  = lower_rest (lookup_from i tab val).
Proof.
  intros Htab. revert i. induction Htab as [|name tab Hname _ IH]; intros i.
  { done. }
  simpl. rewrite string_map_length, string_upto_map, match_fold_lower by done.
  destruct (_ && _); [|apply IH]. simpl. by rewrite string_from_map.
Qed.

Lemma getnum_lower (s : string) :
  getnum (string_map lower_byte s) false = lower_rest (getnum s false).
Proof.
  unfold getnum, isDigit.
  destruct s as [|c0 [|c1 s]]; simpl; [done| |].
  - fold (is_digit_char (lower_byte c0)). fold (is_digit_char c0).
    destruct (lower_byte_digit c0) as (-> & Hid & _).
    destruct (is_digit_char c0); [|done]. simpl. by rewrite Hid.
  - fold (is_digit_char (lower_byte c0)). fold (is_digit_char c0).
    fold (is_digit_char (lower_byte c1)). fold (is_digit_char c1).
    destruct (lower_byte_digit c0) as (-> & Hid0 & _).
    destruct (lower_byte_digit c1) as (-> & Hid1 & _).
    destruct (is_digit_char c0); [|done]. simpl. rewrite Hid0 by done.
    destruct (is_digit_char c1); simpl; [|done]. by rewrite Hid1.
Qed.

Lemma cutspace_lower (s : string) :
  cutspace (string_map lower_byte s) = string_map lower_byte (cutspace s).
Proof.
  induction s as [|c s IH]; simpl; [done|].
  destruct (lower_byte_digit c) as (_ & _ & ->).
  by destruct (Ascii.eqb c " ").
Qed.

Lemma skip_space_lower (value : string) :
  skip (string_map lower_byte value) " "
  = match skip value " " with
    | Ok rest => Ok (string_map lower_byte rest)
    | Err e => Err e
    end.
Proof.
  unfold skip. cbn [String.length skip_loop Ascii.eqb Bool.eqb cutspace].
  destruct value as [|v value]; [done|].
  cbn [string_map]. destruct (lower_byte_digit v) as (_ & _ & Hsp).
  rewrite Hsp. destruct (Ascii.eqb v " ") eqn:Hv; [|done].
  cbn [negb]. change (String (lower_byte v) (string_map lower_byte value))
    with (string_map lower_byte (String v value)).
  by rewrite cutspace_lower.
Qed.

Lemma month_names_letters (s : std) :
  Forall (λ name, string_forallb is_letter_byte name = true) (month_names s).
Proof.
  destruct s; simpl; repeat constructor.
Qed.

Lemma time_Parse_lower (l : layout) (value : string) :
  l ∈ layouts →
  time_Parse l (string_map lower_byte value) = time_Parse l value.
Proof.
  intros (s & Hs & ->)%layouts_shape. unfold time_Parse.
  cbn [chunks tail_literal parse_chunks].
  change (skip ?v "") with (Ok v). cbv iota beta.
  rewrite getnum_lower.
  destruct (getnum value false) as [[d v1]|]; [|done]. cbn [lower_rest].
  rewrite skip_space_lower.
  destruct (skip v1 " ") as [v2|]; [|done].
  assert (∀ tab, tab = month_names s →
     match lookup tab (string_map lower_byte v2) with
     | Ok (m, value0) => Ok (m + 1, d, value0)
     | Err e => Err e
     end
     = match lookup tab v2 with
       | Ok (m, value0) => Ok (m + 1, d, string_map lower_byte value0)
       | Err e => @Err (Z * Z * string) e
       end) as Hlookup.
  { intros tab ->. unfold lookup.
    rewrite lookup_from_lower by apply month_names_letters.
    by destruct (lookup_from 0 (month_names s) v2) as [[m v3]|]. }
  destruct s; [done| |].
  - rewrite (Hlookup shortMonthNames eq_refl).
    destruct (lookup shortMonthNames v2) as [[m v3]|]; [|done].
    by rewrite string_map_length.
  - rewrite (Hlookup longMonthNames eq_refl).
    destruct (lookup longMonthNames v2) as [[m v3]|]; [|done].
    by rewrite string_map_length.
Qed.

Lemma first_parse_lower (dateStr : string) :
  first_parse layouts (string_map lower_byte dateStr)
  = first_parse layouts dateStr.
Proof.
  unfold layouts. cbn [first_parse].
  rewrite !time_Parse_lower; [done|right; left|left].
Qed.

(** X12.  Letters are read without regard to their case: of two date texts that
    differ only in the case of ASCII letters, if one parses the other does,
    to the same date. *)
Theorem normalizeDate_ignores_case (s1 s2 : string) (year : Z) :
  string_map lower_byte s1 = string_map lower_byte s2 →
  is_Some (first_parse layouts s1) →
  normalizeDate s1 year = normalizeDate s2 year.
Proof.
  intros Hlower [t Ht].
  assert (first_parse layouts s2 = Some t) as Ht2.
  { by rewrite <-first_parse_lower, <-Hlower, first_parse_lower. }
  unfold normalizeDate. by rewrite Ht, Ht2.
Qed.

Lemma normalizeDate_ignores_case_witness :
  string_map lower_byte "31 AUG" = string_map lower_byte "31 aug"
  ∧ is_Some (first_parse layouts "31 AUG")
  ∧ normalizeDate "31 AUG" 2025 = normalizeDate "31 aug" 2025.
Proof.
  assert (string_map lower_byte "31 AUG" = string_map lower_byte "31 aug")
    as Hlower by (vm_compute; reflexivity).
  assert (is_Some (first_parse layouts "31 AUG")) as Hsome
    by (vm_compute; eexists; reflexivity).
  split; [exact Hlower|]. split; [exact Hsome|].
  exact (normalizeDate_ignores_case _ _ 2025 Hlower Hsome).
Defined.

(** ** [normalizeState] *)

(** X13.  What a canonical name never is: it holds no space and no ampersand, and
    it is none of the spellings the lookup table renames.  This needs nothing
    of the case table. *)
Theorem normalizeState_never (unicode_ToLower : Z → Z) (st : string) :
  absent " " (normalizeState unicode_ToLower st)
  ∧ absent "&" (normalizeState unicode_ToLower st)
  ∧ normalizeState unicode_ToLower st ∉ legacy_spellings.
Proof.
  unfold normalizeState.
  set (x := ReplaceAll (ReplaceAll (ToLower unicode_ToLower st) " " "-")
              "&" "and").
  assert (absent " " x) as Hspace.
  { subst x. apply absent_ReplaceAll_other; [|done].
    by apply absent_ReplaceAll_same. }
  assert (absent "&" x) as Hamp.
  { subst x. by apply absent_ReplaceAll_same. }
  assert (∀ s : string, s ∈ ["melaka"; "kuala-lumpur"; "putrajaya"] →
            absent " " s ∧ absent "&" s ∧ s ∉ legacy_spellings) as Hnew.
  { intros s Hs. repeat (apply elem_of_cons in Hs as [->|Hs]);
      [..|by apply elem_of_nil in Hs];
      (split; [done|split; [done|]]);
      unfold legacy_spellings; intros Hin;
      repeat (apply elem_of_cons in Hin as [Hin|Hin]; [discriminate Hin|]);
      by apply elem_of_nil in Hin. }
  destruct (String.eqb_spec x "malacca") as [|H1];
    [apply Hnew; by left|].
  destruct (String.eqb_spec x "kualalumpur") as [|H2];
    [apply Hnew; right; by left|].
  destruct (String.eqb_spec x "putrajayaand-selangor") as [|H3];
    [apply Hnew; do 2 right; by left|].
  destruct (String.eqb_spec x "putrajaya-selangor") as [|H4];
    [apply Hnew; do 2 right; by left|].
  cbn [orb]. split; [done|]. split; [done|].
  unfold legacy_spellings. intros Hin.
  repeat (apply elem_of_cons in Hin as [Hin|Hin]; [done|]).
  by apply elem_of_nil in Hin.
Qed.

(** X14.  Canonicalizing ignores the case of the label: a label and its
    lower-cased form have the same canonical name. *)
Theorem normalizeState_ignores_case (unicode_ToLower : Z → Z)
    `{!LowerTable unicode_ToLower} (st : string) :
  normalizeState unicode_ToLower (ToLower unicode_ToLower st)
  = normalizeState unicode_ToLower st.
Proof.
  unfold normalizeState.
  by rewrite (lowered_ToLower _ _ (ToLower_lowered unicode_ToLower st)).
Qed.

Lemma normalizeState_ignores_case_witness :
  LowerTable sample_ToLower
  ∧ normalizeState sample_ToLower (ToLower sample_ToLower "MALACCA")
    = normalizeState sample_ToLower "MALACCA".
Proof.
  split; [exact sample_ToLower_table|].
  exact (normalizeState_ignores_case sample_ToLower "MALACCA").
Defined.

(** The identifiers of the driver's list are canonical already. *)
Lemma states_canonical (unicode_ToLower : Z → Z) (st : string) :
  st ∈ states → normalizeState unicode_ToLower st = st.
Proof.
  unfold states. intros Hst.
  repeat (apply elem_of_cons in Hst as [->|Hst]; [reflexivity|]).
  by apply elem_of_nil in Hst.
Qed.

(** ** [FetchState] and the driver loop *)

Section Driver.

Context (unicode_ToLower : Z → Z) (browser : string → result Document).

Lemma fetch_loop_records (i n : nat) (sts : list string) (year : Z)
    (all : list Holiday) :
  (fetch_loop unicode_ToLower browser i n sts year all).1
  = all ++ flat_map (λ st,
             records_of (FetchState unicode_ToLower browser st year).1) sts.
Proof.
  revert i all. induction sts as [|st sts IH]; intros i all.
  { simpl. by rewrite app_nil_r. }
  rewrite fetch_loop_cons, !log_bind_fst. cbn [flat_map].
  destruct (FetchState unicode_ToLower browser st year).1 as [hs|err].
  - rewrite IH. cbn [records_of]. by rewrite app_assoc.
  - rewrite log_bind_fst, IH. done.
Qed.

Lemma row_warnings_failures (year : Z) (rows : list (list string)) :
  driver_failures (flat_map (row_warnings year) rows) = [].
Proof.
  unfold driver_failures. induction rows as [|r rows IH]; [done|].
  cbn [flat_map]. rewrite omap_app, IH, app_nil_r.
  destruct r as [|r0 [|r1 [|r2 r]]]; try done. cbn [row_warnings].
  unfold normalizeDate. by destruct (first_parse layouts r0).
Qed.

Lemma FetchState_failures (st : string) (year : Z) :
  driver_failures (FetchState unicode_ToLower browser st year).2 = [].
Proof.
  destruct (browser (buildURL st year)) as [document|err] eqn:Hb.
  - rewrite (FetchState_loaded _ _ _ _ _ Hb). cbn zeta. cbn [snd].
    destruct (rows_script year document) as [|r rows]; [done|].
    change (driver_failures (?e :: ?l)) with (driver_failures l).
    unfold driver_failures. rewrite omap_app.
    fold (driver_failures (flat_map (row_warnings year) (r :: rows))).
    by rewrite row_warnings_failures.
  - unfold FetchState. by rewrite Hb.
Qed.

Lemma fetch_loop_failures (i n : nat) (sts : list string) (year : Z)
    (all : list Holiday) :
  driver_failures (fetch_loop unicode_ToLower browser i n sts year all).2
  = omap (λ st, failure_of st (FetchState unicode_ToLower browser st year).1)
      sts.
Proof.
  revert i all. induction sts as [|st sts IH]; intros i all; [done|].
  rewrite fetch_loop_cons, !log_bind_snd.
  unfold driver_failures in *. rewrite !omap_app.
  fold (driver_failures (FetchState unicode_ToLower browser st year).2).
  rewrite FetchState_failures. cbn [log_Printf snd fst omap list_omap app].
  destruct (FetchState unicode_ToLower browser st year).1 as [hs|err].
  - cbn [failure_of]. by rewrite IH.
  - rewrite log_bind_snd, omap_app. cbn [log_Printf snd fst failure_of].
    rewrite IH. done.
Qed.

End Driver.

(** X15.  A failed fetch costs its own records only.  The driver ends with the
    records of the fetches that succeeded, in the order of the state list;
    a state whose page does not load gives an error naming it, and the
    failures logged are exactly those, once each and in order. *)
Theorem main_fetch_partial_results (unicode_ToLower : Z → Z)
    (browser : string → result Document) (year : Z) :
  (main_fetch unicode_ToLower browser year).1
  = flat_map (λ st,
      records_of (FetchState unicode_ToLower browser st year).1) states
  ∧ driver_failures (main_fetch unicode_ToLower browser year).2
    = omap (λ st,
        failure_of st (FetchState unicode_ToLower browser st year).1) states
  ∧ ∀ st err, browser (buildURL st year) = Err err →
      FetchState unicode_ToLower browser st year
      = (Err ("error loading " +:+ st +:+ ": " +:+ err),
         [EvFetching st year (buildURL st year)]).
Proof.
  split; [|split].
  - unfold main_fetch. by rewrite fetch_loop_records.
  - unfold main_fetch. apply fetch_loop_failures.
  - intros st err Hb. unfold FetchState. by rewrite Hb.
Qed.

Lemma FetchState_records (unicode_ToLower : Z → Z)
    (browser : string → result Document) (st : string) (year : Z)
    (h : Holiday) :
  h ∈ records_of (FetchState unicode_ToLower browser st year).1 →
  ∃ document r,
    browser (buildURL st year) = Ok document
    ∧ r ∈ rows_script year document
    ∧ record_of_row unicode_ToLower st year r = Some h.
Proof.
  destruct (browser (buildURL st year)) as [document|err] eqn:Hb.
  - rewrite (FetchState_loaded _ _ _ _ _ Hb). cbn zeta. cbn [fst records_of].
    intros (r & Hr & Hrec)%list_elem_of_omap. by exists document, r.
  - unfold FetchState. rewrite Hb. cbn. by intros ?%elem_of_nil.
Qed.

Lemma elem_of_flat_map {A B} (f : A → list B) (l : list A) (y : B) :
  y ∈ flat_map f l ↔ ∃ x, x ∈ l ∧ y ∈ f x.
Proof.
  rewrite list_elem_of_In, in_flat_map.
  split; intros (x & Hx & Hy); exists x; by rewrite ?list_elem_of_In in *.
Qed.

(** X16.  Every record the driver hands to [Consolidate] comes from a row of at
    least three cells of a page that loaded: its date is the normalized first
    cell, its day and name are the second and third cells as they are, and
    it has one state, the entry of the state list the page was fetched
    for. *)
Theorem main_fetch_records (unicode_ToLower : Z → Z)
    (browser : string → result Document) (year : Z) (h : Holiday) :
  h ∈ (main_fetch unicode_ToLower browser year).1 →
  ∃ st document date day name rest,
    st ∈ states
    ∧ browser (buildURL st year) = Ok document
    ∧ date :: day :: name :: rest ∈ rows_script year document
    ∧ h = MkHoliday (normalizeDate date year).1 day name [st].
Proof.
  unfold main_fetch. rewrite fetch_loop_records. cbn [app].
  intros (st & Hst & Hh)%elem_of_flat_map.
  apply FetchState_records in Hh as (document & r & Hb & Hr & Hrec).
  destruct r as [|date [|day [|name rest]]]; try done.
  injection Hrec as <-. rewrite (states_canonical _ _ Hst).
  by exists st, document, date, day, name, rest.
Qed.

Lemma main_fetch_records_witness :
  MkHoliday "2025-01-01" "Wednesday" "New Year's Day" ["johor"]
    ∈ (main_fetch sample_ToLower (sample_browser [new_year_row]) 2025).1
  ∧ ∃ st, st ∈ states
      ∧ MkHoliday "2025-01-01" "Wednesday" "New Year's Day" ["johor"]
        = MkHoliday (normalizeDate "1 Jan" 2025).1 "Wednesday"
            "New Year's Day" [st].
Proof.
  assert (MkHoliday "2025-01-01" "Wednesday" "New Year's Day" ["johor"]
    ∈ (main_fetch sample_ToLower (sample_browser [new_year_row]) 2025).1)
    as Hin.
  { vm_compute. right. left. }
  split; [exact Hin|].
  destruct (main_fetch_records _ _ _ _ Hin)
    as (st & document & date & day & name & rest & Hst & Hb & Hrow & Heq).
  injection Hb as <-. vm_compute in Hrow.
  apply list_elem_of_singleton in Hrow. injection Hrow as -> -> -> ->.
  exists st. split; [exact Hst|exact Heq].
Defined.

(** X17.  When every date cell of the pages parses, the dates of the driver's
    records hold digits and hyphens only, so no two records of different
    date and name share a merge key: the records are as C2 and C3 want
    them. *)
Theorem main_fetch_keys_faithful (unicode_ToLower : Z → Z)
    (browser : string → result Document) (year : Z) :
  (∀ st document date rest,
     st ∈ states → browser (buildURL st year) = Ok document →
     date :: rest ∈ rows_script year document → (2 ≤ length rest)%nat →
     is_Some (first_parse layouts date)) →
  Forall (λ h, digits_and_hyphens (Date h))
    (main_fetch unicode_ToLower browser year).1
  ∧ keys_faithful (main_fetch unicode_ToLower browser year).1.
Proof.
  intros Hparse.
  assert (Forall (λ h, digits_and_hyphens (Date h))
            (main_fetch unicode_ToLower browser year).1) as Hdigits.
  { apply Forall_forall. intros h Hh.
    unfold main_fetch in Hh. rewrite fetch_loop_records in Hh.
    cbn [app] in Hh. apply elem_of_flat_map in Hh as (st & Hst & Hh).
    apply FetchState_records in Hh as (document & r & Hb & Hr & Hrec).
    destruct r as [|date [|day [|name rest]]]; try done.
    injection Hrec as <-. cbn [Date].
    destruct (Hparse st document date (day :: name :: rest) Hst Hb Hr)
      as [t Ht]; [simpl; lia|].
    by eapply normalizeDate_parsed_digits. }
  split; [done|]. apply bar_free_keys_faithful.
  eapply Forall_impl; [exact Hdigits|].
  intros h. apply digits_and_hyphens_bar_free.
Qed.

Lemma main_fetch_keys_faithful_witness :
  (∀ st document date rest,
     st ∈ states →
     sample_browser [new_year_row] (buildURL st 2025) = Ok document →
     date :: rest ∈ rows_script 2025 document → (2 ≤ length rest)%nat →
     is_Some (first_parse layouts date))
  ∧ keys_faithful
      (main_fetch sample_ToLower (sample_browser [new_year_row]) 2025).1.
Proof.
  assert (∀ st document date rest,
     st ∈ states →
     sample_browser [new_year_row] (buildURL st 2025) = Ok document →
     date :: rest ∈ rows_script 2025 document → (2 ≤ length rest)%nat →
     is_Some (first_parse layouts date)) as Hparse.
  { intros st document date rest _ [= <-] Hrow _. vm_compute in Hrow.
    apply list_elem_of_singleton in Hrow. injection Hrow as -> _.
    vm_compute. eexists. reflexivity. }
  split; [exact Hparse|].
  exact (proj2 (main_fetch_keys_faithful sample_ToLower
                  (sample_browser [new_year_row]) 2025 Hparse)).
Defined.

Lemma main_fetch_partial_results_witness :
  sample_outage [new_year_row] (buildURL "national" 2025)
  = Err "context deadline exceeded"
  ∧ FetchState sample_ToLower (sample_outage [new_year_row]) "national" 2025
    = (Err "error loading national: context deadline exceeded",
       [EvFetching "national" 2025
          "https://publicholidays.com.my/national/2025-dates/"])
  ∧ driver_failures
      (main_fetch sample_ToLower (sample_outage [new_year_row]) 2025).2
    = [("national", "error loading national: context deadline exceeded")].
Proof.
  assert (sample_outage [new_year_row] (buildURL "national" 2025)
          = Err "context deadline exceeded") as Hb by reflexivity.
  split; [exact Hb|].
  destruct (main_fetch_partial_results sample_ToLower
              (sample_outage [new_year_row]) 2025) as (_ & Hfail & Herr).
  split; [exact (Herr "national" _ Hb)|].
  rewrite Hfail. vm_compute. reflexivity.
Defined.

(** ** [buildURL] *)

Lemma string_length_app (s1 s2 : string) :
  String.length (s1 +:+ s2) = (String.length s1 + String.length s2)%nat.
Proof.
  induction s1 as [|c s1 IH]; [done|]. rewrite string_app_cons. simpl.
  by rewrite IH.
Qed.

Lemma string_app_inv_r (s1 s2 t : string) : s1 +:+ t = s2 +:+ t → s1 = s2.
Proof.
  revert s2. induction s1 as [|c s1 IH]; intros [|c2 s2] Heq.
  - done.
  - exfalso. apply (f_equal String.length) in Heq.
    rewrite string_app_cons, string_app_nil_l in Heq. simpl in Heq.
    rewrite string_length_app in Heq. lia.
  - exfalso. apply (f_equal String.length) in Heq.
    rewrite string_app_cons, string_app_nil_l in Heq. simpl in Heq.
    rewrite string_length_app in Heq. lia.
  - rewrite !string_app_cons in Heq. injection Heq as -> Heq.
    f_equal. by apply IH.
Qed.

Lemma string_app_inv_l (s t1 t2 : string) : s +:+ t1 = s +:+ t2 → t1 = t2.
Proof.
  induction s as [|c s IH]; [done|]. rewrite !string_app_cons.
  intros [= Heq]. by apply IH.
Qed.

(** A string is cut at its last ["/"] in one way only. *)
Lemma split_at_last_slash (a1 a2 b1 b2 : string) :
  absent "/" b1 → absent "/" b2 →
  a1 +:+ "/" +:+ b1 = a2 +:+ "/" +:+ b2 → a1 = a2 ∧ b1 = b2.
Proof.
  intros Hb1 Hb2. revert a2.
  induction a1 as [|c1 a1 IH]; intros [|c2 a2];
    rewrite ?string_app_cons, ?string_app_nil_l.
  - by intros [= ->].
  - intros [= <- ->]. exfalso.
    apply absent_app in Hb1 as [_ Hb1].
    by apply absent_cons in Hb1 as [Hne _].
  - intros [= -> <-]. exfalso.
    apply absent_app in Hb2 as [_ Hb2].
    by apply absent_cons in Hb2 as [Hne _].
  - intros [= -> Heq]. by destruct (IH a2 Heq) as [-> ->].
Qed.

Lemma fmt_d_inj (n1 n2 : Z) : fmt_d n1 = fmt_d n2 → n1 = n2.
Proof.
  unfold fmt_d. intros Heq. apply DecimalZ.to_int_inj.
  assert (∀ n : Z, NilZero.int_of_string
                     (NilZero.string_of_int (Z.to_int n))
                   = Some (Z.to_int n)) as Hback.
  { intros n. apply NilZero.isi; destruct n; simpl; try done;
      intros [= H]; by apply DecimalPos.Unsigned.to_uint_nonnil in H. }
  pose proof (Hback n1) as H1. rewrite Heq, Hback in H1. by injection H1.
Qed.

(** X18.  The address of a page tells its state and its year: no two fetches of a
    run, and no two runs for different years, ask for the same address. *)
Theorem buildURL_inj (state1 state2 : string) (year1 year2 : Z) :
  buildURL state1 year1 = buildURL state2 year2 →
  state1 = state2 ∧ year1 = year2.
Proof.
  unfold buildURL. intros Heq%string_app_inv_l.
  assert (∀ s y, s +:+ "/" +:+ fmt_d y +:+ "-dates/"
                 = (s +:+ "/" +:+ fmt_d y) +:+ "-dates/") as Hassoc.
  { intros s y. by rewrite !string_app_assoc. }
  rewrite !Hassoc in Heq. apply string_app_inv_r in Heq.
  apply split_at_last_slash in Heq as [-> Hy%fmt_d_inj]; [done|..];
    apply (digits_and_hyphens_absent "/"); try done;
    apply fmt_d_digits_and_hyphens.
Qed.

Lemma buildURL_inj_witness :
  buildURL "johor" 2025 = buildURL "johor" 2025
  ∧ "johor" = "johor" ∧ 2025 = 2025.
Proof.
  split; [reflexivity|].
  exact (buildURL_inj "johor" "johor" 2025 2025 eq_refl).
Defined.

(** ** The output files *)

Lemma ToLower_ascii (unicode_ToLower : Z → Z) (s : string) :
  string_forallb (λ c, byte_val c <? RuneSelf) s = true →
  ToLower unicode_ToLower s = string_map lower_byte s.
Proof.
  intros Hascii. unfold ToLower. rewrite Hascii, negb_involutive.
  destruct (string_forallb (λ c, negb (is_upper_byte c)) s) eqn:Hup; [|done].
  symmetry. by apply string_map_lower_id.
Qed.

Lemma lower_byte_ascii (c : ascii) :
  (byte_val (lower_byte c) <? RuneSelf) = (byte_val c <? RuneSelf).
Proof.
  apply Bool.eqb_prop. revert c. apply byte_of_range_forallb.
  vm_compute. reflexivity.
Qed.

Lemma string_map_lower_ascii (s : string) :
  string_forallb (λ c, byte_val c <? RuneSelf) (string_map lower_byte s)
  = string_forallb (λ c, byte_val c <? RuneSelf) s.
Proof.
  unfold string_forallb. induction s as [|c s IH]; [done|].
  simpl. by rewrite lower_byte_ascii, IH.
Qed.

(** X19.  The format flag is read without regard to the case of ASCII letters:
    a spelling whose lower-case form is [json] or [csv] ends [main] as that
    form does, whatever the case table of package [unicode] holds. *)
Theorem main_format_ignores_case (unicode_ToLower : Z → Z)
    (unicode_IsSpace : Z → bool) (os_Create : string → result unit)
    (write_error : nat → option string) (flush_ok : bool)
    (json_MarshalIndent : list Holiday → result string)
    (os_WriteFile : string → string → result unit)
    (format out : string) (final : list Holiday) :
  string_map lower_byte format = "json" ∨ string_map lower_byte format = "csv" →
  main_output unicode_ToLower unicode_IsSpace os_Create write_error flush_ok
    json_MarshalIndent os_WriteFile format out final
  = main_output unicode_ToLower unicode_IsSpace os_Create write_error flush_ok
      json_MarshalIndent os_WriteFile (string_map lower_byte format) out final.
Proof.
  intros Hformat.
  assert (string_forallb (λ c, byte_val c <? RuneSelf) format = true)
    as Hascii.
  { rewrite <-string_map_lower_ascii. by destruct Hformat as [-> | ->]. }
  unfold main_output. rewrite (ToLower_ascii _ format Hascii).
  by destruct Hformat as [-> | ->].
Qed.

Lemma main_format_ignores_case_witness :
  main_output sample_ToLower sample_IsSpace create_ok no_write_error true
    sample_marshal write_ok "Json" "holidays" sample_holidays
  = main_output sample_ToLower sample_IsSpace create_ok no_write_error true
      sample_marshal write_ok "json" "holidays" sample_holidays.
Proof.
  apply (main_format_ignores_case sample_ToLower sample_IsSpace create_ok
           no_write_error true sample_marshal write_ok "Json" "holidays"
           sample_holidays).
  left. reflexivity.
Defined.

(** X20.  A format other than [json] and [csv] is turned down only after the
    pages have been fetched: every run enters [FetchState] for all the
    entries of the state list, then ends in [log.Fatalf] with the format as
    it was given, writes no file and leaves the browser open. *)
Theorem main_unsupported_format (unicode_ToLower : Z → Z)
    (unicode_IsSpace : Z → bool) (os_Create : string → result unit)
    (write_error : nat → option string) (flush_ok : bool)
    (json_MarshalIndent : list Holiday → result string)
    (os_WriteFile : string → string → result unit)
    (browser : string → result Document) (year : Z) (format out : string)
    (log : list event) (output : Output) :
  ToLower unicode_ToLower format ≠ "json" →
  ToLower unicode_ToLower format ≠ "csv" →
  main_run unicode_ToLower unicode_IsSpace os_Create write_error flush_ok
    json_MarshalIndent os_WriteFile browser year format out log output →
  dispatched log = states
  ∧ output = MkOutput (Fatal ("Unsupported format: " +:+ format)) None false.
Proof.
  intros Hjson Hcsv (final & _ & -> & ->). split.
  - apply fetch_loop_dispatched.
  - unfold main_output.
    apply String.eqb_neq in Hjson, Hcsv. by rewrite Hjson, Hcsv.
Qed.

Lemma main_unsupported_format_witness :
  main_run sample_ToLower sample_IsSpace create_ok no_write_error true
    sample_marshal write_ok
    (sample_browser [new_year_row]) 2025 "xml" "holidays"
    (main_fetch sample_ToLower (sample_browser [new_year_row]) 2025).2
    (MkOutput (Fatal "Unsupported format: xml") None false)
  ∧ dispatched (main_fetch sample_ToLower (sample_browser [new_year_row]) 2025).2
    = states.
Proof.
  assert (main_run sample_ToLower sample_IsSpace create_ok no_write_error
    true sample_marshal
    write_ok (sample_browser [new_year_row]) 2025 "xml" "holidays"
    (main_fetch sample_ToLower (sample_browser [new_year_row]) 2025).2
    (MkOutput (Fatal "Unsupported format: xml") None false)) as Hrun.
  { exists (Consolidate
      (main_fetch sample_ToLower (sample_browser [new_year_row]) 2025).1).
    split; [apply Consolidate_admissible|]. split; reflexivity. }
  split; [exact Hrun|].
  apply (main_unsupported_format sample_ToLower sample_IsSpace create_ok
           no_write_error true sample_marshal write_ok
           (sample_browser [new_year_row]) 2025
           "xml" "holidays" _ _) in Hrun as [Hd _].
  - exact Hd.
  - vm_compute. discriminate.
  - vm_compute. discriminate.
Defined.

(** *** Taking apart what [csv.Writer] writes *)

Lemma decode_quoted_body (field t g : string) (acc : list string) :
  decode_record (quoted_body field +:+ String quote t) InQuotes g acc
  = decode_record t AfterQuote (g +:+ field) acc.
Proof.
  revert g. induction field as [|c field IH]; intros g.
  { cbn [quoted_body]. rewrite string_app_nil_l, string_app_nil_r.
    cbn [decode_record]. by rewrite Ascii.eqb_refl. }
  cbn [quoted_body]. destruct (Ascii.eqb c quote) eqn:Hc.
  - apply Ascii.eqb_eq in Hc as ->. rewrite !string_app_cons.
    cbn [decode_record]. rewrite !Ascii.eqb_refl. rewrite IH.
    by rewrite string_app_assoc, string_app_cons, string_app_nil_l.
  - rewrite string_app_cons. cbn [decode_record]. rewrite Hc, IH.
    by rewrite string_app_assoc, string_app_cons, string_app_nil_l.
Qed.

Lemma is_special_false (c : ascii) :
  is_special c = false →
  Ascii.eqb c quote = false ∧ Ascii.eqb c comma = false
  ∧ Ascii.eqb c newline = false.
Proof.
  unfold is_special. intros H.
  apply orb_false_iff in H as [H Hcomma].
  apply orb_false_iff in H as [H Hquote].
  apply orb_false_iff in H as [Hnl _]. done.
Qed.

Lemma decode_plain (field t g : string) (acc : list string) :
  existsb is_special (list_ascii_of_string field) = false →
  decode_record (field +:+ t) InField g acc
  = decode_record t InField (g +:+ field) acc.
Proof.
  revert g. induction field as [|c field IH]; intros g Hplain.
  { by rewrite string_app_nil_l, string_app_nil_r. }
  cbn [list_ascii_of_string existsb] in Hplain.
  apply orb_false_iff in Hplain as [(Hq & Hc & Hn)%is_special_false Hplain].
  rewrite string_app_cons. cbn [decode_record]. rewrite Hq, Hc, Hn.
  rewrite IH by done.
  by rewrite string_app_assoc, string_app_cons, string_app_nil_l.
Qed.

Lemma decode_csv_field (unicode_IsSpace : Z → bool) (sep : ascii)
    (field t : string) (acc : list string) :
  sep = comma ∨ sep = newline →
  decode_record (csv_field unicode_IsSpace field +:+ String sep t)
    FieldStart "" acc
  = field_end sep t field acc.
Proof.
  intros Hsep.
  assert (∀ g, decode_record (String sep t) InField g acc
               = field_end sep t g acc) as Hin.
  { intros g. unfold field_end. by destruct Hsep as [-> | ->]. }
  assert (decode_record (String sep t) FieldStart "" acc
          = field_end sep t "" acc) as Hstart.
  { unfold field_end. by destruct Hsep as [-> | ->]. }
  assert (∀ g, decode_record (String sep t) AfterQuote g acc
               = field_end sep t g acc) as Hafter.
  { intros g. unfold field_end. by destruct Hsep as [-> | ->]. }
  unfold csv_field, fieldNeedsQuotes.
  destruct field as [|c field].
  { cbn [String.eqb negb]. by rewrite string_app_nil_l. }
  change (String.eqb (String c field) "") with false. cbv iota.
  destruct (String.eqb (String c field) "\.") eqn:Hdot;
    [|destruct (existsb is_special
                  (list_ascii_of_string (String c field))) eqn:Hsp;
      [|destruct (unicode_IsSpace
                    (DecodeRuneInString (String c field)).1) eqn:Hspace]];
    cbn [negb].
  1-3: rewrite string_app_cons; cbn [decode_record]; rewrite Ascii.eqb_refl;
       rewrite string_app_assoc, string_app_cons, string_app_nil_l;
       rewrite decode_quoted_body, string_app_nil_l; apply Hafter.
  pose proof Hsp as Hsp'. cbn [list_ascii_of_string existsb] in Hsp'.
  apply orb_false_iff in Hsp' as [(Hq & Hc & Hn)%is_special_false Hrest].
  rewrite string_app_cons. cbn [decode_record]. rewrite Hq, Hc, Hn.
  rewrite decode_plain by done. rewrite string_app_cons, string_app_nil_l.
  apply Hin.
Qed.

Lemma decode_csv_fields (unicode_IsSpace : Z → bool) (n : nat) (field : string)
    (record acc : list string) (rest : string) :
  decode_record
    (csv_field unicode_IsSpace field
     +:+ csv_fields unicode_IsSpace (S n) record +:+ rest)
    FieldStart "" acc
  = Some (acc ++ field :: record, rest).
Proof.
  revert n field acc. induction record as [|field' record IH];
    intros n field acc.
  - cbn [csv_fields]. rewrite string_app_cons, string_app_nil_l.
    rewrite decode_csv_field by (by right). done.
  - cbn [csv_fields]. change (0 <? S n)%nat with true. cbv iota.
    rewrite !string_app_cons, string_app_nil_l.
    rewrite decode_csv_field by (by left). unfold field_end.
    rewrite Ascii.eqb_refl, string_app_assoc, IH.
    by rewrite <-app_assoc.
Qed.

Lemma decode_csv_Write (unicode_IsSpace : Z → bool) (record : list string)
    (rest : string) :
  record ≠ [] →
  decode_record (csv_Write unicode_IsSpace record +:+ rest) FieldStart "" []
  = Some (record, rest).
Proof.
  destruct record as [|field record]; [done|]. intros _.
  unfold csv_Write. cbn [csv_fields]. change (0 <? 0)%nat with false.
  cbv iota. rewrite string_app_nil_l, string_app_assoc.
  by rewrite decode_csv_fields.
Qed.

Lemma decode_records_step (fuel : nat) (s rest : string) (record : list string) :
  decode_record s FieldStart "" [] = Some (record, rest) →
  decode_records (S fuel) s
  = match decode_records fuel rest with
    | None => None
    | Some records => Some (record :: records)
    end.
Proof.
  intros Hread. destruct s as [|c s]; [done|].
  cbn [decode_records]. by rewrite Hread.
Qed.

Lemma decode_records_rows (unicode_IsSpace : Z → bool) (fuel : nat)
    (holidays : list Holiday) :
  (length holidays ≤ fuel)%nat →
  decode_records fuel (csv_rows unicode_IsSpace holidays)
  = Some (map csv_row holidays).
Proof.
  revert fuel. induction holidays as [|h holidays IH]; intros fuel Hfuel.
  { by destruct fuel. }
  destruct fuel as [|fuel]; [cbn [length] in Hfuel; lia|].
  cbn [csv_rows map].
  rewrite (decode_records_step _ _ (csv_rows unicode_IsSpace holidays)
             (csv_row h)) by (by apply decode_csv_Write).
  rewrite IH; [done|]. cbn [length] in Hfuel. lia.
Qed.

Lemma csv_fields_length (unicode_IsSpace : Z → bool) (n : nat)
    (record : list string) :
  (1 ≤ String.length (csv_fields unicode_IsSpace n record))%nat.
Proof.
  revert n. induction record as [|field record IH]; intros n.
  - cbn. lia.
  - cbn [csv_fields]. rewrite !string_length_app. specialize (IH (S n)). lia.
Qed.

Lemma csv_rows_length (unicode_IsSpace : Z → bool) (holidays : list Holiday) :
  (length holidays ≤ String.length (csv_rows unicode_IsSpace holidays))%nat.
Proof.
  induction holidays as [|h holidays IH]; [cbn; lia|].
  cbn [csv_rows length]. rewrite string_length_app.
  pose proof (csv_fields_length unicode_IsSpace 0 (csv_row h)).
  unfold csv_Write. lia.
Qed.

Lemma decode_csv_file (unicode_IsSpace : Z → bool) (holidays : list Holiday) :
  decode_csv (csv_Write unicode_IsSpace csv_header
            +:+ csv_rows unicode_IsSpace holidays)
  = Some (csv_header :: map csv_row holidays).
Proof.
  unfold decode_csv. rewrite string_length_app.
  pose proof (csv_fields_length unicode_IsSpace 0 csv_header) as Hh.
  fold (csv_Write unicode_IsSpace csv_header) in Hh.
  destruct (String.length (csv_Write unicode_IsSpace csv_header))
    as [|n]; [lia|].
  cbn [Nat.add].
  rewrite (decode_records_step _ _ (csv_rows unicode_IsSpace holidays)
             csv_header) by (by apply decode_csv_Write).
  rewrite decode_records_rows; [done|].
  pose proof (csv_rows_length unicode_IsSpace holidays). lia.
Qed.

Lemma write_rows_Ok (write_error : nat → option string)
    (unicode_IsSpace : Z → bool) (n : nat) (holidays : list Holiday)
    (written content : string) :
  write_rows unicode_IsSpace write_error n holidays written = Ok content →
  content = written +:+ csv_rows unicode_IsSpace holidays.
Proof.
  revert n written. induction holidays as [|h holidays IH]; intros n written.
  { cbn [write_rows csv_rows]. intros [= <-]. by rewrite string_app_nil_r. }
  cbn [write_rows csv_rows]. destruct (write_error n); [done|].
  intros ->%IH. by rewrite string_app_assoc.
Qed.

Lemma saveCSV_content (unicode_IsSpace : Z → bool)
    (os_Create : string → result unit) (write_error : nat → option string)
    (flush_ok : bool) (path : string) (holidays : list Holiday)
    (file : string * string) :
  (saveCSV unicode_IsSpace os_Create write_error flush_ok path holidays).2
  = Some file →
  file = (path, csv_Write unicode_IsSpace csv_header
                +:+ csv_rows unicode_IsSpace holidays).
Proof.
  unfold saveCSV. destruct (os_Create path); [|done].
  destruct (write_error 0%nat); [done|].
  destruct (write_rows _ _ _ _ _) as [written|] eqn:Hrows; [|done].
  apply write_rows_Ok in Hrows as ->.
  destruct flush_ok; [|done]. by intros [= <-].
Qed.

(** *** The column of the states *)

Lemma split_on_absent (sep : ascii) (s current : string) :
  absent sep s → split_on sep s current = [current +:+ s].
Proof.
  unfold absent, string_forallb. revert current.
  induction s as [|c s IH]; intros current Hs.
  { by rewrite string_app_nil_r. }
  cbn [list_ascii_of_string forallb] in Hs.
  apply andb_true_iff in Hs as [Hc%negb_true_iff Hs].
  cbn [split_on]. rewrite Hc, IH by done.
  by rewrite string_app_assoc, string_app_cons, string_app_nil_l.
Qed.

Lemma split_on_app (sep : ascii) (s t current : string) :
  absent sep s →
  split_on sep (s +:+ String sep t) current
  = (current +:+ s) :: split_on sep t "".
Proof.
  unfold absent, string_forallb. revert current.
  induction s as [|c s IH]; intros current Hs.
  { rewrite string_app_nil_l, string_app_nil_r. cbn [split_on].
    by rewrite Ascii.eqb_refl. }
  cbn [list_ascii_of_string forallb] in Hs.
  apply andb_true_iff in Hs as [Hc%negb_true_iff Hs].
  rewrite string_app_cons. cbn [split_on]. rewrite Hc, IH by done.
  by rewrite string_app_assoc, string_app_cons, string_app_nil_l.
Qed.

Lemma split_on_Join (sep : ascii) (elems : list string) :
  elems ≠ [] → Forall (absent sep) elems →
  split_on sep (strings_Join elems (String sep "")) "" = elems.
Proof.
  induction elems as [|e elems IH]; [done|]. intros _ Habs.
  apply Forall_cons in Habs as [He Habs].
  destruct elems as [|e' elems].
  { cbn [strings_Join]. by rewrite split_on_absent, string_app_nil_l. }
  change (strings_Join (e :: e' :: elems) (String sep ""))
    with (e +:+ String sep "" +:+ strings_Join (e' :: elems) (String sep "")).
  rewrite string_app_cons, string_app_nil_l, split_on_app by done.
  rewrite string_app_nil_l. f_equal. by apply IH.
Qed.

Lemma mapM_holiday_of_row (holidays : list Holiday) :
  Forall (λ h, States h ≠ [] ∧ Forall (absent ";") (States h)) holidays →
  mapM holiday_of_row (map csv_row holidays) = Some holidays.
Proof.
  intros Hall. apply mapM_Some. induction Hall as [|h holidays [Hne Habs] _ IH].
  { constructor. }
  cbn [map]. constructor; [|done].
  unfold csv_row, holiday_of_row. rewrite split_on_Join by done.
  by destruct h.
Qed.

Lemma main_fetch_states (unicode_ToLower : Z → Z)
    (browser : string → result Document) (year : Z) (h : Holiday) :
  h ∈ (main_fetch unicode_ToLower browser year).1 →
  ∃ st, st ∈ states ∧ States h = [st].
Proof.
  unfold main_fetch. rewrite fetch_loop_records. cbn [app].
  intros (st & Hst & Hh)%elem_of_flat_map.
  apply FetchState_records in Hh as (document & r & Hb & Hr & Hrec).
  destruct r as [|date [|day [|name rest]]]; try done.
  injection Hrec as <-. rewrite (states_canonical _ _ Hst).
  by exists st.
Qed.

Lemma states_absent_semicolon (st : string) : st ∈ states → absent ";" st.
Proof.
  unfold states. intros Hst.
  repeat (apply elem_of_cons in Hst as [->|Hst]; [reflexivity|]).
  by apply elem_of_nil in Hst.
Qed.

Lemma main_final_states (unicode_ToLower : Z → Z)
    (browser : string → result Document) (year : Z) (final : list Holiday) :
  Consolidate_result (main_fetch unicode_ToLower browser year).1 final →
  Forall (λ h, States h ≠ [] ∧ Forall (absent ";") (States h)) final.
Proof.
  intros Hres. apply Forall_forall. intros o Ho.
  pose proof (Consolidate_result_origin _ _ _ Hres Ho) as Hm.
  unfold merged_record in Hm.
  destruct (group (merge_key o) (main_fetch unicode_ToLower browser year).1)
    as [|h0 g] eqn:Hg; [done|].
  injection Hm as <-. cbn [States].
  assert (∀ h, h ∈ h0 :: g → ∃ st, st ∈ states ∧ States h = [st]) as Horigin.
  { intros h Hh. apply (main_fetch_states unicode_ToLower browser year).
    rewrite <-Hg in Hh. by apply elem_of_group in Hh as [_ Hh]. }
  split.
  - destruct (Horigin h0) as (st & _ & Hst); [left|].
    intros Hnil. apply (elem_of_nil st). rewrite <-Hnil.
    apply elem_of_unique. rewrite Hst. left.
  - apply Forall_forall. intros s Hs.
    assert (∃ h, h ∈ h0 :: g ∧ s ∈ States h) as (h & Hh & Hin).
    { apply elem_of_unique, elem_of_app in Hs as [Hs|Hs].
      - exists h0. split; [left|done].
      - apply elem_of_flat_map_States in Hs as (h & Hh & Hs).
        exists h. split; [by right|done]. }
    clear Hs. rename Hin into Hs.
    destruct (Horigin h Hh) as (st & Hst & Heq). rewrite Heq in Hs.
    apply list_elem_of_singleton in Hs as ->.
    by apply states_absent_semicolon.
Qed.

Lemma csv_content_rows (unicode_IsSpace : Z → bool)
    (holidays1 holidays2 : list Holiday) :
  csv_Write unicode_IsSpace csv_header +:+ csv_rows unicode_IsSpace holidays1
  = csv_Write unicode_IsSpace csv_header
    +:+ csv_rows unicode_IsSpace holidays2 →
  map csv_row holidays1 = map csv_row holidays2.
Proof.
  intros Hcontent. apply (f_equal decode_csv) in Hcontent.
  rewrite !decode_csv_file in Hcontent. by injection Hcontent.
Qed.

Lemma csv_rows_fields (holidays1 holidays2 : list Holiday) :
  map csv_row holidays1 = map csv_row holidays2 →
  Forall2 (λ h1 h2,
      Date h1 = Date h2 ∧ Day h1 = Day h2 ∧ Name h1 = Name h2
      ∧ strings_Join (States h1) ";" = strings_Join (States h2) ";")
    holidays1 holidays2.
Proof.
  revert holidays2. induction holidays1 as [|h1 holidays1 IH];
    intros [|h2 holidays2] Hrows; try done.
  injection Hrows as Hdate Hday Hname Hstates Hrows.
  constructor; [done|]. by apply IH.
Qed.

Lemma csv_rows_holidays (holidays1 holidays2 : list Holiday) :
  map csv_row holidays1 = map csv_row holidays2 →
  Forall (λ h, States h ≠ [] ∧ Forall (absent ";") (States h)) holidays1 →
  Forall (λ h, States h ≠ [] ∧ Forall (absent ";") (States h)) holidays2 →
  holidays1 = holidays2.
Proof.
  intros Hrows H1%mapM_holiday_of_row H2%mapM_holiday_of_row.
  rewrite Hrows, H2 in H1. by injection H1.
Qed.

(** X21.  The file of [saveCSV] loses nothing of the rows.  Two calls that
    leave complete files of the same content were given as many records,
    and these agree one by one in date, day and name, whatever commas,
    quotes, line breaks or spaces these hold, and in their states joined
    by semicolons; they were given the same records when every record has
    a state and no state holds a semicolon. *)
Theorem saveCSV_injective (unicode_IsSpace : Z → bool)
    (os_Create1 os_Create2 : string → result unit)
    (write_error1 write_error2 : nat → option string)
    (flush_ok1 flush_ok2 : bool) (path1 path2 : string)
    (holidays1 holidays2 : list Holiday) (file1 file2 : string * string) :
  (saveCSV unicode_IsSpace os_Create1 write_error1 flush_ok1 path1
     holidays1).2 = Some file1 →
  (saveCSV unicode_IsSpace os_Create2 write_error2 flush_ok2 path2
     holidays2).2 = Some file2 →
  file1.2 = file2.2 →
  Forall2 (λ h1 h2,
      Date h1 = Date h2 ∧ Day h1 = Day h2 ∧ Name h1 = Name h2
      ∧ strings_Join (States h1) ";" = strings_Join (States h2) ";")
    holidays1 holidays2
  ∧ (Forall (λ h, States h ≠ [] ∧ Forall (absent ";") (States h)) holidays1 →
     Forall (λ h, States h ≠ [] ∧ Forall (absent ";") (States h)) holidays2 →
     holidays1 = holidays2).
Proof.
  intros ->%saveCSV_content ->%saveCSV_content Hcontent. cbn [snd] in Hcontent.
  apply csv_content_rows in Hcontent. split.
  - by apply csv_rows_fields.
  - by apply csv_rows_holidays.
Qed.

(** Two lists that differ in a state with a semicolon, and give the same
    file. *)
Lemma saveCSV_injective_witness :
  ∃ content,
    (saveCSV sample_IsSpace create_ok no_write_error true "a.csv"
       [MkHoliday "2025-01-29" "Wednesday" "Chinese New Year, day 1"
          ["johor;kedah"]]).2 = Some ("a.csv", content)
    ∧ (saveCSV sample_IsSpace create_ok no_write_error true "b.csv"
         [MkHoliday "2025-01-29" "Wednesday" "Chinese New Year, day 1"
            ["johor"; "kedah"]]).2 = Some ("b.csv", content)
    ∧ Forall2 (λ h1 h2,
          Date h1 = Date h2 ∧ Day h1 = Day h2 ∧ Name h1 = Name h2
          ∧ strings_Join (States h1) ";" = strings_Join (States h2) ";")
        [MkHoliday "2025-01-29" "Wednesday" "Chinese New Year, day 1"
           ["johor;kedah"]]
        [MkHoliday "2025-01-29" "Wednesday" "Chinese New Year, day 1"
           ["johor"; "kedah"]].
Proof.
  eexists. split; [reflexivity|]. split; [reflexivity|].
  refine (proj1 (saveCSV_injective sample_IsSpace create_ok create_ok
                   no_write_error no_write_error true true "a.csv" "b.csv"
                   _ _ (_, _) (_, _) _ _ _));
    reflexivity.
Defined.

Lemma main_output_csv (unicode_ToLower : Z → Z) (unicode_IsSpace : Z → bool)
    (os_Create : string → result unit) (write_error : nat → option string)
    (flush_ok : bool) (json_MarshalIndent : list Holiday → result string)
    (os_WriteFile : string → string → result unit)
    (format out : string) (final : list Holiday) (file : string * string) :
  ToLower unicode_ToLower format = "csv" →
  out_file (main_output unicode_ToLower unicode_IsSpace os_Create write_error
              flush_ok json_MarshalIndent os_WriteFile format out final)
  = Some file →
  main_output unicode_ToLower unicode_IsSpace os_Create write_error
    flush_ok json_MarshalIndent os_WriteFile format out final
  = MkOutput (Returned (out +:+ ".csv")) (Some file) true
  ∧ file = (out +:+ ".csv",
            csv_Write unicode_IsSpace csv_header
            +:+ csv_rows unicode_IsSpace final).
Proof.
  intros Hformat. unfold main_output. rewrite Hformat.
  change (String.eqb "csv" "json") with false.
  change (String.eqb "csv" "csv") with true. cbv iota zeta.
  pose proof (saveCSV_content unicode_IsSpace os_Create write_error flush_ok
                (out +:+ ".csv") final file) as Hcontent.
  destruct (saveCSV unicode_IsSpace os_Create write_error flush_ok
              (out +:+ ".csv") final) as [[[]|err] saved] eqn:Hsave;
    cbn [after_save out_file snd] in *; intros ->.
  - split; [done|]. by apply Hcontent.
  - exfalso. revert Hsave. unfold saveCSV.
    destruct (os_Create _); [|done]. destruct (write_error 0%nat); [done|].
    by destruct (write_rows _ _ _ _ _).
Qed.

(** X22.  What [main] writes with the format [csv] tells what [Consolidate]
    gave.  A complete file is left only by a run that returns, with the
    browser closed, and it is [out.csv]; and two runs, whatever pages they
    met and whatever year and file name they were given, that leave
    complete files of the same content had the same list from
    [Consolidate], record by record, states and their order included. *)
Theorem main_csv_lossless (unicode_ToLower : Z → Z)
    (unicode_IsSpace : Z → bool)
    (json_MarshalIndent : list Holiday → result string)
    (os_WriteFile : string → string → result unit)
    (os_Create1 os_Create2 : string → result unit)
    (write_error1 write_error2 : nat → option string)
    (flush_ok1 flush_ok2 : bool)
    (browser1 browser2 : string → result Document) (year1 year2 : Z)
    (format1 format2 out1 out2 : string) (final1 final2 : list Holiday)
    (file1 file2 : string * string) :
  ToLower unicode_ToLower format1 = "csv" →
  ToLower unicode_ToLower format2 = "csv" →
  Consolidate_result (main_fetch unicode_ToLower browser1 year1).1 final1 →
  Consolidate_result (main_fetch unicode_ToLower browser2 year2).1 final2 →
  out_file (main_output unicode_ToLower unicode_IsSpace os_Create1
              write_error1 flush_ok1 json_MarshalIndent os_WriteFile
              format1 out1 final1) = Some file1 →
  out_file (main_output unicode_ToLower unicode_IsSpace os_Create2
              write_error2 flush_ok2 json_MarshalIndent os_WriteFile
              format2 out2 final2) = Some file2 →
  file1.2 = file2.2 →
  main_output unicode_ToLower unicode_IsSpace os_Create1 write_error1
    flush_ok1 json_MarshalIndent os_WriteFile format1 out1 final1
  = MkOutput (Returned (out1 +:+ ".csv")) (Some file1) true
  ∧ file1.1 = out1 +:+ ".csv"
  ∧ final1 = final2.
Proof.
  intros Hformat1 Hformat2 Hres1 Hres2 Hfile1 Hfile2 Hcontent.
  destruct (main_output_csv _ _ _ _ _ _ _ _ _ _ _ Hformat1 Hfile1)
    as [Hout1 ->].
  destruct (main_output_csv _ _ _ _ _ _ _ _ _ _ _ Hformat2 Hfile2)
    as [_ ->].
  split; [done|]. split; [done|]. cbn [snd] in Hcontent.
  apply csv_content_rows in Hcontent.
  apply (csv_rows_holidays _ _ Hcontent); by eapply main_final_states.
Qed.

Lemma main_csv_lossless_witness :
  ∃ content,
    out_file (main_output sample_ToLower sample_IsSpace create_ok
                no_write_error true sample_marshal write_ok "CSV" "holidays"
                (Consolidate
                   (main_fetch sample_ToLower
                      (sample_browser [new_year_row]) 2025).1))
    = Some ("holidays.csv", content)
    ∧ main_output sample_ToLower sample_IsSpace create_ok
        no_write_error true sample_marshal write_ok "CSV" "holidays"
        (Consolidate
           (main_fetch sample_ToLower (sample_browser [new_year_row]) 2025).1)
      = MkOutput (Returned "holidays.csv")
          (Some ("holidays.csv", content)) true.
Proof.
  eexists. split; [vm_compute; reflexivity|].
  refine (proj1 (main_csv_lossless sample_ToLower sample_IsSpace
           sample_marshal write_ok create_ok create_ok no_write_error
           no_write_error true true
           (sample_browser [new_year_row]) (sample_browser [new_year_row])
           2025 2025 "CSV" "csv" "holidays" "copy"
           (Consolidate
              (main_fetch sample_ToLower
                 (sample_browser [new_year_row]) 2025).1)
           (Consolidate
              (main_fetch sample_ToLower
                 (sample_browser [new_year_row]) 2025).1)
           (_, _) (_, _) _ _ _ _ _ _ _)).
  - vm_compute. reflexivity.
  - vm_compute. reflexivity.
  - apply Consolidate_admissible.
  - apply Consolidate_admissible.
  - vm_compute. reflexivity.
  - vm_compute. reflexivity.
  - reflexivity.
Defined.

(** ** The script run in the page *)

Lemma find_first {A} (p : A → bool) (pre : list A) (x : A) (post : list A) :
  Forall (λ y, p y = false) pre → p x = true →
  find p (pre ++ x :: post) = Some x.
Proof.
  intros Hpre Hx. induction Hpre as [|y pre Hy _ IH].
  - cbn [app find]. by rewrite Hx.
  - cbn [app find]. by rewrite Hy.
Qed.

(** X23.  Only the first heading naming the year counts.  The rows [FetchState]
    reads are those of the element that follows it, and the headings and
    tables further down the page are not looked at: when that element is
    missing or is not the table of the holidays, the result is empty even
    if a later heading naming the year stands above such a table. *)
Theorem FetchState_first_heading_decides (unicode_ToLower : Z → Z)
    (browser : string → result Document) (state : string) (year : Z)
    (pre post : list Heading) (h : Heading) :
  browser (buildURL state year) = Ok (pre ++ h :: post) →
  Forall (λ h', includes (innerText h') (fmt_d year) = false) pre →
  includes (innerText h) (fmt_d year) = true →
  rows_script year (pre ++ h :: post) = rows_script year [h]
  ∧ (FetchState unicode_ToLower browser state year).1
    = Ok (omap (record_of_row unicode_ToLower state year)
            (rows_script year [h]))
  ∧ (nextElementSibling h = None
     ∨ (∃ table, nextElementSibling h = Some table
                 ∧ "publicholidays" ∉ classList table) →
     (FetchState unicode_ToLower browser state year).1 = Ok []).
Proof.
  intros Hb Hpre Hh.
  assert (rows_script year (pre ++ h :: post) = rows_script year [h])
    as Hrows.
  { unfold rows_script. rewrite (find_first _ pre h post Hpre Hh).
    cbn [find]. by rewrite Hh. }
  split; [done|]. rewrite (FetchState_loaded _ _ _ _ _ Hb). cbn zeta.
  cbn [fst]. rewrite Hrows. split; [done|].
  intros Hmissing. unfold rows_script. cbn [find]. rewrite Hh.
  destruct Hmissing as [-> | (table & -> & Hclass)]; [done|].
  by rewrite bool_decide_eq_false_2.
Qed.

Lemma FetchState_first_heading_decides_witness :
  (FetchState sample_ToLower sample_misleading_browser "johor" 2025).1 = Ok []
  ∧ (FetchState sample_ToLower (sample_browser [new_year_row]) "johor" 2025).1
    = Ok [MkHoliday "2025-01-01" "Wednesday" "New Year's Day" ["johor"]].
Proof.
  split; [|reflexivity].
  apply (FetchState_first_heading_decides sample_ToLower
           sample_misleading_browser "johor" 2025
           [MkHeading "Upcoming holidays" None] (sample_page 2025 [new_year_row])
           school_heading).
  - reflexivity.
  - repeat constructor.
  - reflexivity.
  - left. reflexivity.
Defined.
